(** * Gold Rush Digger: a shallow embedding of [src/App.tsx]

    The game is a React application.  Its logical core is a handful of event
    handlers that update three collections (blocks, nuggets, particles), three
    counters (gold, digs, combo) and two kinds of browser timers.  This file
    embeds those handlers as functions on an explicit [World] and proves the
    properties of the specification about them.

    Conventions of the embedding.
    - Integer-valued JavaScript numbers (counters, ids, dig levels, grid
      coordinates) are [Z].  The other numbers (random draws, velocities,
      opacity, frame deltas) are exact rationals [Q]: the arithmetic of the
      source is read as exact arithmetic, binary64 rounding is not modelled.
    - [Math.random] is an oracle: a stream of draws and a cursor.
    - [setTimeout]/[clearTimeout] act on an explicit table of pending timers.
    - A closure stored in a timer keeps the values it captured.  The only
      captured value that matters is [combo], read by [App.handleGoldCollect]
      from the render that created the callback (its dependency list is
      [[combo]]); it is carried by the timer's callback.
    - React keeps the state of a component instance under its [key]; instance
      state is a function of the key ([dugLevel], [collected], [opacity],
      [meshRef]).  Keys are never reused, so the default of each function is
      the initial state of [useState]/[useRef]. *)

From Stdlib Require Import ZArith QArith Qminmax Qround Lqa Lia.
From Stdlib Require Import List String Ascii Bool Arith DecimalString.
From Stdlib Require Import DecimalPos DecimalZ.
Import ListNotations.

Set Implicit Arguments.
Local Open Scope Z_scope.

(** ** JavaScript primitives used by the source *)

Module JS.

(** [`${n}`] for an integer-valued number. *)
Definition toString (n : Z) : string := NilZero.string_of_int (Z.to_int n).

(** [Math.floor]. *)
Definition floor (q : Q) : Z := Qfloor q.

(** [a < b] on numbers. *)
Definition lt (a b : Q) : bool := negb (Qle_bool b a).

(** [a <= b] on numbers. *)
Definition le (a b : Q) : bool := Qle_bool a b.

(** [Math.max]. *)
Definition max (a b : Q) : Q := Qmax a b.

(** [Math.min]. *)
Definition min (a b : Q) : Q := Qmin a b.

(** Truthiness of a timer handle: a number is falsy only when it is 0. *)
Definition truthy (h : nat) : bool := negb (h =? 0)%nat.

(** [for (let i = lo; i <= hi; i++) body(i)], threading the state [S]. *)
Section Loops.
Variable S : Type.

Fixpoint forFrom (n : nat) (i : Z) (body : Z -> S -> S) (s : S) : S :=
  match n with
  | O => s
  | Datatypes.S n' => forFrom n' (i + 1) body (body i s)
  end.

Definition forLoop (lo hi : Z) (body : Z -> S -> S) (s : S) : S :=
  forFrom (Z.to_nat (hi + 1 - lo)) lo body s.
End Loops.

End JS.

(** ** The random oracle *)

Record Rng := mkRng { draws : nat -> Q; cursor : nat }.

(** [Math.random()]: the next draw of the stream. *)
Definition Math_random (r : Rng) : Q * Rng :=
  (draws r (cursor r), mkRng (draws r) (S (cursor r))).

(** ** Browser timers *)

(** The two closures the source hands to [setTimeout]. *)
Inductive Callback : Type :=
| OnCollect (id : Z) (combo : Z)
    (** [() => onCollect(id)] of [GoldNugget.handleClick]; [combo] is the value
        captured by the [handleGoldCollect] this [onCollect] leads to. *)
| ResetCombo
    (** [() => setCombo(0)] of [App.handleGoldCollect]. *).

Record Timer := mkTimer { handle : nat; due : nat; callback : Callback }.

Record Browser := mkBrowser {
  now : nat;               (* milliseconds *)
  nextHandle : nat;        (* handles are issued from 1 *)
  pending : list Timer
}.

Definition setTimeout (cb : Callback) (ms : nat) (b : Browser) : nat * Browser :=
  (nextHandle b,
   mkBrowser (now b) (S (nextHandle b))
             (pending b ++ [mkTimer (nextHandle b) (now b + ms) cb])).

Definition clearTimeout (h : nat) (b : Browser) : Browser :=
  mkBrowser (now b) (nextHandle b)
            (filter (fun t => negb (handle t =? h)%nat) (pending b)).

(** ** Data model *)

Definition Vec3 : Type := Q * Q * Q.
Definition Pos : Type := Z * Z * Z.

(** An entry of [blocks]. *)
Record Block := mkBlock {
  pos : Pos;
  id : string;
  hasGold : bool;
  depth : Z
}.

(** An entry of [nuggets]. *)
Record Nugget := mkNugget { npos : Vec3; nid : Z }.

(** An entry of [particles]; [pvel] is the [THREE.Vector3] the particle's
    frame callback mutates in place. *)
Record Particle := mkParticle { pid : Z; ppos : Vec3; pvel : Vec3 }.

(** State of [App]. *)
Record AppState := mkApp {
  gold : Z;
  digs : Z;
  combo : Z;
  comboTimerRef : option nat
}.

(** State of [GameScene]. *)
Record SceneState := mkScene {
  blocks : list Block;
  nuggets : list Nugget;
  particles : list Particle;
  nuggetIdRef : Z;
  particleIdRef : Z
}.

(** State of the mounted component instances, by React key. *)
Record Instances := mkInst {
  dugLevel : string -> Z;          (* GroundBlock: useState(0) *)
  collected : Z -> bool;           (* GoldNugget: useState(false) *)
  opacity : Z -> Q;                (* DirtParticle: useState(1) *)
  meshRef : Z -> option Vec3       (* DirtParticle: position of the mounted mesh *)
}.

Record World := mkWorld {
  rng : Rng;
  browser : Browser;
  app : AppState;
  scene : SceneState;
  inst : Instances
}.

Definition withRng (r : Rng) (w : World) : World :=
  mkWorld r (browser w) (app w) (scene w) (inst w).
Definition withBrowser (b : Browser) (w : World) : World :=
  mkWorld (rng w) b (app w) (scene w) (inst w).
Definition withApp (a : AppState) (w : World) : World :=
  mkWorld (rng w) (browser w) a (scene w) (inst w).
Definition withScene (s : SceneState) (w : World) : World :=
  mkWorld (rng w) (browser w) (app w) s (inst w).
Definition withInst (i : Instances) (w : World) : World :=
  mkWorld (rng w) (browser w) (app w) (scene w) i.

(** ** App *)

Module App.

(** [const bonus = Math.floor(combo / 3) + 1] *)
Definition bonus (combo : Z) : Z := JS.floor (inject_Z combo / 3) + 1.

(** [handleGoldCollect], as created by a render in which the state [combo]
    had the value of the first argument.  [setGold] and [setCombo] are given
    updater functions and so act on the current state; [bonus] is computed
    from the captured [combo]. *)
Definition handleGoldCollect (combo_ : Z) (w : World) : World :=
  let bonus := bonus combo_ in
  let a := app w in
  let b1 :=
    match comboTimerRef a with
    | Some h => if JS.truthy h then clearTimeout h (browser w) else browser w
    | None => browser w
    end in
  let '(h, b2) := setTimeout ResetCombo 2000 b1 in
  withBrowser b2
    (withApp (mkApp (gold a + bonus) (digs a) (combo a + 1) (Some h)) w).

(** [handleDig]: [setDigs(prev => prev + 1)]. *)
Definition handleDig (w : World) : World :=
  let a := app w in
  withApp (mkApp (gold a) (digs a + 1) (combo a) (comboTimerRef a)) w.

(** The timer callback [() => setCombo(0)]. *)
Definition resetCombo (w : World) : World :=
  let a := app w in
  withApp (mkApp (gold a) (digs a) 0 (comboTimerRef a)) w.

End App.

(** ** GroundBlock *)

Module GroundBlock.

(** [handleClick] of a block with props [b] whose state is [dugLevel]:
    the next [dugLevel] and the call of [onDig], if one is made. *)
Definition handleClick (b : Block) (dugLevel : Z) : Z * option (Pos * bool) :=
  if dugLevel <? 3 then
    (dugLevel + 1,
     if dugLevel =? 2 then Some (pos b, hasGold b) else None)
  else (dugLevel, None).

(** [if (dugLevel >= 3) return null]: does the block render a mesh? *)
Definition renders (dugLevel : Z) : bool := negb (3 <=? dugLevel).

(** [const scale = 1 - dugLevel * 0.25] *)
Definition scale (dugLevel : Z) : Q := 1 - inject_Z dugLevel * 0.25.

(** A run of clicks on one block: the final [dugLevel] and the [onDig]
    calls made, in order. *)
Fixpoint clicks (n : nat) (b : Block) (dugLevel : Z) : Z * list (Pos * bool) :=
  match n with
  | O => (dugLevel, [])
  | S n' =>
      let '(d, call) := handleClick b dugLevel in
      let '(d', calls) := clicks n' b d in
      (d', match call with Some c => c :: calls | None => calls end)
  end.

(** [getColor], from the [depth] prop. *)
Definition getColor (depth : Z) : string :=
  if depth <? 2 then "#8B7355"        (* topsoil *)
  else if depth <? 4 then "#654321"   (* brown dirt *)
  else if depth <? 6 then "#4A3728"   (* dark earth *)
  else "#363636".                     (* rock *)

(** [color={hovered ? "#A0522D" : getColor()}] *)
Definition color (hovered : bool) (depth : Z) : string :=
  if hovered then "#A0522D" else getColor depth.

(** The [position] prop of the mesh:
    [[position[0], position[1] - (1 - scale) * 0.5, position[2]]]. *)
Definition meshPosition (p : Pos) (dugLevel : Z) : Vec3 :=
  let '(x, y, z) := p in
  (inject_Z x, inject_Z y - (1 - scale dugLevel) * 0.5, inject_Z z)%Q.

(** The box is [0.95] high and scaled by [scale] along y: the heights of its
    top and bottom faces. *)
Definition top (p : Pos) (dugLevel : Z) : Q :=
  (snd (fst (meshPosition p dugLevel)) + 0.95 * scale dugLevel / 2)%Q.

Definition bottom (p : Pos) (dugLevel : Z) : Q :=
  (snd (fst (meshPosition p dugLevel)) - 0.95 * scale dugLevel / 2)%Q.

End GroundBlock.

(** ** GoldNugget *)

Module GoldNugget.

(** [handleClick] of the nugget [id] whose state is [collected]: the next
    [collected], and the delay after which [onCollect(id)] is scheduled,
    if it is. *)
Definition handleClick (id : Z) (collected : bool) : bool * option (nat * Z) :=
  if negb collected then (true, Some (300%nat, id))
  else (collected, None).

(** A run of clicks on one nugget. *)
Fixpoint clicks (n : nat) (id : Z) (collected : bool) : bool * list (nat * Z) :=
  match n with
  | O => (collected, [])
  | S n' =>
      let '(c, sched) := handleClick id collected in
      let '(c', scheds) := clicks n' id c in
      (c', match sched with Some s => s :: scheds | None => scheds end)
  end.

(** The animated state of one instance: the rotation and the height of its
    mesh, and the states [scale] and [collected]. *)
Record State := mkState {
  rotationX : Q;
  rotationY : Q;
  positionY : Q;
  scale : Q;
  collected : bool
}.

(** The [useFrame] callback. *)
Definition useFrame (delta : Q) (s : State) : State :=
  if negb (collected s) then
    mkState (rotationX s + delta * 0.5) (rotationY s + delta * 2) (positionY s)
            (if JS.lt (scale s) 1 then JS.min 1 (scale s + delta * 3)
             else scale s)
            (collected s)
  else
    mkState (rotationX s) (rotationY s) (positionY s + delta * 5)
            (JS.max 0 (scale s - delta * 3))
            (collected s).

(** [scale={scale * 0.3}] *)
Definition meshScale (s : State) : Q := scale s * 0.3.

(** A run of frames. *)
Fixpoint frames (deltas : list Q) (s : State) : State :=
  match deltas with
  | [] => s
  | d :: ds => frames ds (useFrame d s)
  end.

End GoldNugget.

(** ** DirtParticle *)

Module DirtParticle.

(** One instance: the position of its mesh ([None] when no mesh is
    mounted, [meshRef.current] being null), its velocity vector and its
    opacity. *)
Record State := mkState {
  mesh : option Vec3;
  velocity : Vec3;
  opacity : Q
}.

(** The [useFrame] callback. *)
Definition useFrame (delta : Q) (s : State) : State :=
  match mesh s with
  | Some (mx, my, mz) =>
      let '(vx, vy, vz) := velocity s in
      mkState (Some (mx + vx * delta, my + vy * delta, mz + vz * delta)%Q)
              (vx, vy - delta * 15, vz)%Q
              (JS.max 0 (opacity s - delta * 2))
  | None => s
  end.

(** [if (opacity <= 0) return null]: does the particle render a mesh? *)
Definition renders (opacity : Q) : bool := negb (JS.le opacity 0).

(** The render that follows a frame: a particle that renders nothing has
    its mesh unmounted. *)
Definition render (s : State) : State :=
  if renders (opacity s) then s else mkState None (velocity s) (opacity s).

Definition frame (delta : Q) (s : State) : State := render (useFrame delta s).

(** A run of frames. *)
Fixpoint frames (deltas : list Q) (s : State) : State :=
  match deltas with
  | [] => s
  | d :: ds => frames ds (frame d s)
  end.

End DirtParticle.

(** ** GameScene *)

Module GameScene.

(** [`${x}-${y}-${z}`] *)
Definition blockId (p : Pos) : string :=
  let '(x, y, z) := p in
  (JS.toString x ++ "-" ++ JS.toString y ++ "-" ++ JS.toString z)%string.

(** [const goldChance = depth * 0.03 + 0.02] *)
Definition goldChance (depth : Z) : Q := inject_Z depth * 0.03 + 0.02.

(** The body of the innermost loop of the grid initialisation. *)
Definition pushBlock (x y z : Z) (s : list Block * Rng) : list Block * Rng :=
  let '(newBlocks, r) := s in
  let depth := - y in
  let goldChance := goldChance depth in
  let '(u, r') := Math_random r in
  (newBlocks ++ [mkBlock (x, y, z) (blockId (x, y, z)) (JS.lt u goldChance) depth], r').

(** The effect that initialises the grid: the new [blocks] and the oracle
    after its draws. *)
Definition initGrid (r : Rng) : list Block * Rng :=
  JS.forLoop (-4) 4 (fun x =>
    JS.forLoop (-5) 0 (fun y =>
      JS.forLoop (-4) 4 (fun z => pushBlock x y z)))
    ([], r).

(** [[x, y + 0.5, z]] *)
Definition above (p : Pos) : Vec3 :=
  let '(x, y, z) := p in (inject_Z x, inject_Z y + 0.5, inject_Z z)%Q.

(** The body of the particle loop of [handleDig]. *)
Definition pushParticle (p : Pos) (s : list Particle * Z * Rng)
  : list Particle * Z * Rng :=
  let '(newParticles, particleId, r) := s in
  let '(u1, r1) := Math_random r in
  let '(u2, r2) := Math_random r1 in
  let '(u3, r3) := Math_random r2 in
  (newParticles ++
     [mkParticle particleId (above p)
                 ((u1 - 0.5) * 8, u2 * 6 + 2, (u3 - 0.5) * 8)%Q],
   particleId + 1, r3).

(** [handleDig(pos, hasGold)] *)
Definition handleDig (p : Pos) (hasGold : bool) (w : World) : World :=
  let w := App.handleDig w in                                   (* onDig() *)
  let s := scene w in
  let '(newParticles, particleId, r) :=
    JS.forLoop 0 7 (fun _ => pushParticle p) ([], particleIdRef s, rng w) in
  let particles' := particles s ++ newParticles in
  let blocks' :=
    filter (fun b => negb (String.eqb (id b) (blockId p))) (blocks s) in
  let '(nuggets', nuggetId) :=
    if hasGold
    then (nuggets s ++ [mkNugget (above p) (nuggetIdRef s)], nuggetIdRef s + 1)
    else (nuggets s, nuggetIdRef s) in
  withRng r (withScene (mkScene blocks' nuggets' particles' nuggetId particleId) w).

(** [handleCollectGold(id)], as created by a render whose [onGoldCollect]
    captured [combo]. *)
Definition handleCollectGold (combo : Z) (id : Z) (w : World) : World :=
  let s := scene w in
  let nuggets' := filter (fun n => negb (nid n =? id)) (nuggets s) in
  App.handleGoldCollect combo
    (withScene (mkScene (blocks s) nuggets' (particles s)
                        (nuggetIdRef s) (particleIdRef s)) w).

End GameScene.

(** ** The running application *)

(** What can happen to the page: a click that hits the mesh of a block or of
    a nugget, an animation frame, and the passing of time. *)
Inductive Event : Type :=
| ClickBlock (key : string)
| ClickNugget (key : Z)
| Frame (delta : Q)
| Elapse (ms : nat).

Definition updS (f : string -> Z) (k : string) (v : Z) : string -> Z :=
  fun x => if String.eqb x k then v else f x.

Definition updZ (A : Type) (f : Z -> A) (k : Z) (v : A) : Z -> A :=
  fun x => if x =? k then v else f x.

(** React mounts a [DirtParticle] for each new entry of [particles]: its mesh
    is created at the entry's position. *)
Definition mount (fresh : list Particle) (i : Instances) : Instances :=
  mkInst (dugLevel i) (collected i) (opacity i)
         (fun k =>
            match find (fun p => pid p =? k) fresh with
            | Some p => Some (ppos p)
            | None => meshRef i k
            end).

Definition clickBlock (key : string) (w : World) : World :=
  match find (fun b => String.eqb (id b) key) (blocks (scene w)) with
  | Some b =>
      let i := inst w in
      let '(d, call) := GroundBlock.handleClick b (dugLevel i key) in
      let w1 :=
        withInst (mkInst (updS (dugLevel i) key d) (collected i)
                         (opacity i) (meshRef i)) w in
      match call with
      | Some (p, g) =>
          let w2 := GameScene.handleDig p g w1 in
          let fresh :=
            skipn (List.length (particles (scene w1))) (particles (scene w2)) in
          withInst (mount fresh (inst w2)) w2
      | None => w1
      end
  | None => w
  end.

Definition clickNugget (key : Z) (w : World) : World :=
  match find (fun n => nid n =? key) (nuggets (scene w)) with
  | Some n =>
      let i := inst w in
      let '(c, sched) := GoldNugget.handleClick (nid n) (collected i key) in
      let w1 :=
        withInst (mkInst (dugLevel i) (updZ (collected i) key c)
                         (opacity i) (meshRef i)) w in
      match sched with
      | Some (ms, id) =>
          let '(_, b) :=
            setTimeout (OnCollect id (combo (app w))) ms (browser w) in
          withBrowser b w1
      | None => w1
      end
  | None => w
  end.

(** The instance state of the particle of entry [p]. *)
Definition particleState (w : World) (p : Particle) : DirtParticle.State :=
  DirtParticle.mkState (meshRef (inst w) (pid p)) (pvel p)
                       (opacity (inst w) (pid p)).

(** One animation frame: every particle instance runs its frame callback and
    is rendered again. *)
Definition frame (delta : Q) (w : World) : World :=
  let s := scene w in
  let i := inst w in
  let after p := DirtParticle.frame delta (particleState w p) in
  let look k := find (fun p => pid p =? k) (particles s) in
  withInst
    (mkInst (dugLevel i) (collected i)
            (fun k => match look k with
                      | Some p => DirtParticle.opacity (after p)
                      | None => opacity i k
                      end)
            (fun k => match look k with
                      | Some p => DirtParticle.mesh (after p)
                      | None => meshRef i k
                      end))
    (withScene
       (mkScene (blocks s) (nuggets s)
                (map (fun p => mkParticle (pid p) (ppos p)
                                          (DirtParticle.velocity (after p)))
                     (particles s))
                (nuggetIdRef s) (particleIdRef s)) w).

(** [a] fires no later than [b]: earlier due time, then earlier handle. *)
Definition before (a b : Timer) : bool :=
  ((due a <? due b) || ((due a =? due b) && (handle a <=? handle b)))%nat.

Fixpoint earliest (ts : list Timer) : option Timer :=
  match ts with
  | [] => None
  | t :: r =>
      match earliest r with
      | Some u => if before t u then Some t else Some u
      | None => Some t
      end
  end.

Definition runCallback (cb : Callback) (w : World) : World :=
  match cb with
  | OnCollect id c => GameScene.handleCollectGold c id w
  | ResetCombo => App.resetCombo w
  end.

(** The browser runs the pending timer [t]: it leaves the table, the clock
    stands at its due time, its callback runs. *)
Definition fire (t : Timer) (w : World) : World :=
  let b := browser w in
  runCallback (callback t)
    (withBrowser
       (mkBrowser (Nat.max (now b) (due t)) (nextHandle b)
                  (filter (fun u => negb (handle u =? handle t)%nat) (pending b)))
       w).

(** Fire, in order, the timers that are due by [deadline]. *)
Fixpoint runTimers (fuel : nat) (deadline : nat) (w : World) : World :=
  match fuel with
  | O => w
  | S fuel' =>
      match earliest (pending (browser w)) with
      | Some t =>
          if (due t <=? deadline)%nat
          then runTimers fuel' deadline (fire t w)
          else w
      | None => w
      end
  end.

(** A bound on the firings that can follow from the pending timers: the
    callback of a nugget schedules one combo reset, a combo reset nothing. *)
Definition weight (t : Timer) : nat :=
  match callback t with OnCollect _ _ => 2 | ResetCombo => 1 end.

Definition firings (w : World) : nat :=
  list_sum (map weight (pending (browser w))).

Definition elapse (ms : nat) (w : World) : World :=
  let deadline := (now (browser w) + ms)%nat in
  let w' := runTimers (firings w) deadline w in
  let b := browser w' in
  withBrowser (mkBrowser deadline (nextHandle b) (pending b)) w'.

Definition step (w : World) (e : Event) : World :=
  match e with
  | ClickBlock key => clickBlock key w
  | ClickNugget key => clickNugget key w
  | Frame delta => frame delta w
  | Elapse ms => elapse ms w
  end.

Definition run (es : list Event) (w : World) : World := fold_left step es w.

(** The page after its first render and the grid effect. *)
Definition init (ds : nat -> Q) : World :=
  let '(bs, r) := GameScene.initGrid (mkRng ds 0) in
  mkWorld r (mkBrowser 0 1 []) (mkApp 0 0 0 None) (mkScene bs [] [] 0 0)
          (mkInst (fun _ => 0) (fun _ => false) (fun _ => 1%Q) (fun _ => None)).

(** A stream of draws that are all 0, the least value [Math.random] returns. *)
Definition zeros : nat -> Q := fun _ => 0%Q.

(** * Properties *)

Unset Implicit Arguments.

(** ** Arithmetic of the primitives *)


Lemma le_spec (a b : Q) : JS.le a b = true <-> (a <= b)%Q.
Proof. unfold JS.le. apply Qle_bool_iff. Qed.

Lemma max0_spec (q : Q) :
  ((q <= 0 /\ JS.max 0 q == 0) \/ (0 < q /\ JS.max 0 q == q))%Q.
Proof.
  unfold JS.max. destruct (Q.max_spec 0 q) as [[H E]|[H E]]; [right|left]; auto.
Qed.

Lemma bonus_div (c : Z) : App.bonus c = c / 3 + 1.
Proof. unfold App.bonus, JS.floor. rewrite (Zdiv_Qdiv c 3). reflexivity. Qed.

(** Decide the integer tests of a goal, dropping the impossible cases. *)
Ltac zbool :=
  repeat match goal with
    | |- context [?a <? ?b] => destruct (Z.ltb_spec a b); try lia
    | |- context [?a <=? ?b] => destruct (Z.leb_spec a b); try lia
    | |- context [?a =? ?b] => destruct (Z.eqb_spec a b); try lia
    end;
  cbn [andb orb negb fst snd].

(** ** C1: clicks on a ground block *)

Section GroundBlockFacts.
Variable b : Block.

Lemma handleClick_done d : 3 <= d -> GroundBlock.handleClick b d = (d, None).
Proof.
  intro H. unfold GroundBlock.handleClick.
  destruct (Z.ltb_spec d 3); [lia | reflexivity].
Qed.

Lemma handleClick_digs d :
  d < 3 ->
  GroundBlock.handleClick b d =
    (d + 1, if d =? 2 then Some (pos b, hasGold b) else None).
Proof.
  intro H. unfold GroundBlock.handleClick.
  destruct (Z.ltb_spec d 3); [reflexivity | lia].
Qed.

Lemma handleClick_onDig d :
  snd (GroundBlock.handleClick b d) =
    if d =? 2 then Some (pos b, hasGold b) else None.
Proof.
  destruct (Z_lt_le_dec d 3) as [H|H].
  - rewrite handleClick_digs by assumption. reflexivity.
  - rewrite handleClick_done by assumption.
    destruct (Z.eqb_spec d 2); [lia | reflexivity].
Qed.

Lemma clicks_from d n :
  0 <= d <= 3 ->
  GroundBlock.clicks n b d =
    (Z.min (d + Z.of_nat n) 3,
     if (d <? 3) && (3 <=? d + Z.of_nat n)
     then [(pos b, hasGold b)] else []).
Proof.
  revert d. induction n as [|n IH]; intros d Hd.
  - cbn [GroundBlock.clicks]. rewrite Z.add_0_r, Z.min_l by lia.
    zbool; reflexivity.
  - cbn [GroundBlock.clicks].
    destruct (Z_lt_le_dec d 3) as [H|H].
    + rewrite handleClick_digs by assumption.
      rewrite IH by lia.
      replace (d + 1 + Z.of_nat n) with (d + Z.of_nat (S n)) by lia.
      f_equal. zbool; reflexivity.
    + rewrite handleClick_done by assumption.
      rewrite IH by lia.
      rewrite !Z.min_r by lia.
      zbool; reflexivity.
Qed.
End GroundBlockFacts.

(** C1.  A click on a block whose [dugLevel] is 3 changes nothing and calls
    nothing; a click below 3 adds exactly 1; so [dugLevel] never decreases and
    stays within 0..3.  [onDig] is called by the click that finds [dugLevel]
    at 2, with the block's position and [hasGold], and by no other: in a run
    of [n] clicks on a fresh block it is called once if [n >= 3] and never
    before, and from the third click on the block renders nothing. *)
Theorem ground_block_dig_levels (b : Block) :
  GroundBlock.handleClick b 3 = (3, None)
  /\ (forall d, d < 3 -> fst (GroundBlock.handleClick b d) = d + 1)
  /\ (forall d, d <= fst (GroundBlock.handleClick b d))
  /\ (forall d, 0 <= d <= 3 -> 0 <= fst (GroundBlock.handleClick b d) <= 3)
  /\ (forall d, snd (GroundBlock.handleClick b d) =
                if d =? 2 then Some (pos b, hasGold b) else None)
  /\ (forall n, GroundBlock.clicks n b 0 =
                (Z.min (Z.of_nat n) 3,
                 if 3 <=? Z.of_nat n then [(pos b, hasGold b)] else []))
  /\ (forall n, GroundBlock.renders (fst (GroundBlock.clicks n b 0)) =
                (Z.of_nat n <? 3)).
Proof.
  repeat split.
  - intros d H. rewrite handleClick_digs by assumption. reflexivity.
  - intro d. destruct (Z_lt_le_dec d 3) as [H|H].
    + rewrite handleClick_digs by assumption. simpl. lia.
    + rewrite handleClick_done by assumption. simpl. lia.
  - destruct (Z_lt_le_dec d 3) as [L|L].
    + rewrite handleClick_digs by assumption. simpl. lia.
    + rewrite handleClick_done by assumption. simpl. lia.
  - destruct (Z_lt_le_dec d 3) as [L|L].
    + rewrite handleClick_digs by assumption. simpl. lia.
    + rewrite handleClick_done by assumption. simpl. lia.
  - apply handleClick_onDig.
  - intro n. rewrite clicks_from by lia. reflexivity.
  - intro n. rewrite clicks_from by lia. cbn [fst].
    unfold GroundBlock.renders. rewrite Z.add_0_l.
    zbool; reflexivity.
Qed.

(** ** C2: the combo bonus *)

Lemma handleGoldCollect_app (c : Z) (w : World) :
  gold (app (App.handleGoldCollect c w)) = gold (app w) + (c / 3 + 1)
  /\ combo (app (App.handleGoldCollect c w)) = combo (app w) + 1
  /\ digs (app (App.handleGoldCollect c w)) = digs (app w).
Proof.
  unfold App.handleGoldCollect. rewrite bonus_div.
  destruct (comboTimerRef (app w)) as [h|]; [destruct (JS.truthy h)|];
    repeat split; reflexivity.
Qed.

(** When the callback that runs is the one of the current render, the bonus
    is computed from the combo the increment then acts on. *)
Lemma handleGoldCollect_fresh (w : World) :
  let w' := App.handleGoldCollect (combo (app w)) w in
  gold (app w') = gold (app w) + (combo (app w) / 3 + 1)
  /\ combo (app w') = combo (app w) + 1.
Proof.
  destruct (handleGoldCollect_app (combo (app w)) w) as (G & C & _).
  split; assumption.
Qed.

(** The bonuses of the specification's scenario. *)
Lemma bonus_table : map App.bonus [0; 1; 2; 3; 4; 5] = [1; 1; 1; 2; 2; 2].
Proof. reflexivity. Qed.

(** Three clicks on the block [key] excavate it. *)
Definition dig (key : string) : list Event :=
  [ClickBlock key; ClickBlock key; ClickBlock key].

(** Four surface blocks are excavated, each leaving a nugget (every draw of
    [zeros] is below the gold chance); the four nuggets are clicked 50 ms
    apart, the last one at 150 ms. *)
Definition four_quick_clicks : list Event :=
  dig "0-0-0" ++ dig "1-0-0" ++ dig "2-0-0" ++ dig "3-0-0" ++
  [ClickNugget 0; Elapse 50; ClickNugget 1; Elapse 50;
   ClickNugget 2; Elapse 50; ClickNugget 3].

(** C2 (failing input).  When nuggets are clicked within 300 ms of each
    other, every [onCollect] scheduled holds the [handleGoldCollect] of a
    render in which [combo] was still 0.  By 400 ms three collections have
    run: [gold = 3], [combo = 3].  The fourth, at 450 ms, finds [combo = 3],
    so its bonus should be [floor(3 / 3) + 1 = 2]; the code adds 1. *)
Theorem quick_collections_bonus :
  let w := run four_quick_clicks (init zeros) in
  let w3 := run [Elapse 250] w in
  let w4 := run [Elapse 50] w3 in
  map callback (pending (browser w)) =
    [OnCollect 0 0; OnCollect 1 0; OnCollect 2 0; OnCollect 3 0]
  /\ (gold (app w3), combo (app w3)) = (3, 3)
  /\ App.bonus (combo (app w3)) = 2
  /\ (gold (app w4), combo (app w4)) = (4, 4)
  /\ gold (app w4) - gold (app w3) <> App.bonus (combo (app w3)).
Proof. vm_compute. repeat split; congruence. Qed.

(** ** What each handler touches *)

Lemma handleGoldCollect_frame (c : Z) (w : World) :
  scene (App.handleGoldCollect c w) = scene w
  /\ inst (App.handleGoldCollect c w) = inst w
  /\ rng (App.handleGoldCollect c w) = rng w.
Proof.
  unfold App.handleGoldCollect.
  destruct (comboTimerRef (app w)) as [h|]; [destruct (JS.truthy h)|];
    repeat split; reflexivity.
Qed.

Lemma handleCollectGold_scene (c k : Z) (w : World) :
  scene (GameScene.handleCollectGold c k w) =
    mkScene (blocks (scene w))
            (filter (fun n => negb (nid n =? k)) (nuggets (scene w)))
            (particles (scene w)) (nuggetIdRef (scene w))
            (particleIdRef (scene w)).
Proof.
  unfold GameScene.handleCollectGold.
  destruct (handleGoldCollect_frame c
    (withScene (mkScene (blocks (scene w))
                 (filter (fun n => negb (nid n =? k)) (nuggets (scene w)))
                 (particles (scene w)) (nuggetIdRef (scene w))
                 (particleIdRef (scene w))) w)) as (S & _ & _).
  rewrite S. reflexivity.
Qed.

Lemma handleCollectGold_app (c k : Z) (w : World) :
  gold (app (GameScene.handleCollectGold c k w)) = gold (app w) + (c / 3 + 1)
  /\ combo (app (GameScene.handleCollectGold c k w)) = combo (app w) + 1
  /\ digs (app (GameScene.handleCollectGold c k w)) = digs (app w).
Proof.
  unfold GameScene.handleCollectGold.
  match goal with |- context [App.handleGoldCollect ?c ?w'] =>
    destruct (handleGoldCollect_app c w') as (G & C & D) end.
  rewrite G, C, D. repeat split; reflexivity.
Qed.

Lemma handleCollectGold_inst (c k : Z) (w : World) :
  inst (GameScene.handleCollectGold c k w) = inst w
  /\ rng (GameScene.handleCollectGold c k w) = rng w.
Proof.
  unfold GameScene.handleCollectGold.
  match goal with |- context [App.handleGoldCollect ?c ?w] =>
    destruct (handleGoldCollect_frame c w) as (_ & I & R) end.
  rewrite I, R. split; reflexivity.
Qed.

(** The particle the [k]-th turn of the loop of [handleDig] creates, when the
    loop starts with the id [pid0] and the oracle at draw [c] of [ds]. *)
Definition spawned (p : Pos) (pid0 : Z) (ds : nat -> Q) (c : nat) (k : nat)
  : Particle :=
  mkParticle (pid0 + Z.of_nat k) (GameScene.above p)
             ((ds (c + 3 * k)%nat - 0.5) * 8,
              ds (c + 3 * k + 1)%nat * 6 + 2,
              (ds (c + 3 * k + 2)%nat - 0.5) * 8)%Q.

Lemma particle_loop (p : Pos) (ds : nat -> Q) (n : nat) :
  forall (i : Z) (acc : list Particle) (pid0 : Z) (c : nat),
    JS.forFrom n i (fun _ => GameScene.pushParticle p) (acc, pid0, mkRng ds c) =
      (acc ++ map (spawned p pid0 ds c) (seq 0 n),
       pid0 + Z.of_nat n, mkRng ds (c + 3 * n)).
Proof.
  induction n as [|n IH]; intros i acc pid0 c.
  - cbn [JS.forFrom seq map]. rewrite app_nil_r, Z.add_0_r.
    do 2 f_equal. lia.
  - cbn [JS.forFrom]. unfold GameScene.pushParticle at 2, Math_random.
    cbn [draws cursor]. rewrite IH. rewrite <- app_assoc.
    assert (L : [mkParticle pid0 (GameScene.above p)
                   ((ds c - 0.5) * 8, ds (S c) * 6 + 2,
                    (ds (S (S c)) - 0.5) * 8)%Q] ++
                map (spawned p (pid0 + 1) ds (S (S (S c)))) (seq 0 n) =
                map (spawned p pid0 ds c) (seq 0 (S n))).
    { cbn [seq map Datatypes.app]. f_equal.
      - unfold spawned. rewrite Z.add_0_r.
        replace (c + 3 * 0)%nat with c by lia.
        replace (c + 1)%nat with (S c) by lia.
        replace (c + 2)%nat with (S (S c)) by lia. reflexivity.
      - rewrite <- seq_shift, map_map. apply map_ext. intro k.
        unfold spawned. f_equal; [lia|].
        replace (S (S (S c)) + 3 * k)%nat with (c + 3 * S k)%nat by lia.
        reflexivity. }
    rewrite L. f_equal; [f_equal; lia | f_equal; lia].
Qed.

(** [handleDig] in closed form. *)
Lemma handleDig_eq (p : Pos) (g : bool) (w : World) :
  GameScene.handleDig p g w =
    let s := scene w in
    let a := app w in
    mkWorld (mkRng (draws (rng w)) (cursor (rng w) + 24))
            (browser w)
            (mkApp (gold a) (digs a + 1) (combo a) (comboTimerRef a))
            (mkScene
               (filter (fun b => negb (String.eqb (id b) (GameScene.blockId p)))
                       (blocks s))
               (if g then nuggets s ++ [mkNugget (GameScene.above p) (nuggetIdRef s)]
                else nuggets s)
               (particles s ++
                  map (spawned p (particleIdRef s) (draws (rng w)) (cursor (rng w)))
                      (seq 0 8))
               (if g then nuggetIdRef s + 1 else nuggetIdRef s)
               (particleIdRef s + 8))
            (inst w).
Proof.
  unfold GameScene.handleDig, JS.forLoop.
  cbn [App.handleDig withApp scene rng app browser inst].
  replace (Z.to_nat (7 + 1 - 0)) with 8%nat by reflexivity.
  destruct (rng w) as [ds c] eqn:R.
  rewrite particle_loop. cbn [draws cursor app].
  destruct g; reflexivity.
Qed.

(** ** C3, C10: the grid and its gold *)

Definition range (lo : Z) (n : nat) : list Z :=
  map (fun i => lo + Z.of_nat i) (seq 0 n).

(** The cells of the grid, in the order the loops visit them. *)
Definition cells : list Pos :=
  flat_map (fun x =>
    flat_map (fun y => map (fun z => (x, y, z)) (range (-4) 9)) (range (-5) 6))
    (range (-4) 9).

(** The block made for the [i]-th cell visited. *)
Definition cellBlock (ds : nat -> Q) (ip : nat * Pos) : Block :=
  let '(i, (x, y, z)) := ip in
  mkBlock (x, y, z) (GameScene.blockId (x, y, z))
          (JS.lt (ds i) (GameScene.goldChance (- y))) (- y).

Lemma initGrid_eq (ds : nat -> Q) :
  GameScene.initGrid (mkRng ds 0) =
    (map (cellBlock ds) (combine (seq 0 486) cells), mkRng ds 486).
Proof. vm_compute. reflexivity. Qed.

Lemma in_range (lo : Z) (n : nat) (x : Z) :
  In x (range lo n) <-> lo <= x < lo + Z.of_nat n.
Proof.
  unfold range. rewrite in_map_iff. split.
  - intros (i & <- & H). apply in_seq in H. lia.
  - intro H. exists (Z.to_nat (x - lo)). split; [lia|]. apply in_seq. lia.
Qed.

Lemma in_cells (x y z : Z) :
  In (x, y, z) cells <-> -4 <= x <= 4 /\ -5 <= y <= 0 /\ -4 <= z <= 4.
Proof.
  unfold cells. rewrite in_flat_map. split.
  - intros (x' & Hx & H). apply in_flat_map in H. destruct H as (y' & Hy & H).
    apply in_map_iff in H. destruct H as (z' & E & Hz). inversion E; subst.
    apply in_range in Hx, Hy, Hz. lia.
  - intros (Hx & Hy & Hz). exists x. split; [apply in_range; lia|].
    apply in_flat_map. exists y. split; [apply in_range; lia|].
    apply in_map_iff. exists z. split; [reflexivity | apply in_range; lia].
Qed.

(** Pairwise distinctness, decided. *)
Section Distinct.
Variable A : Type.
Variable eqb : A -> A -> bool.
Hypothesis eqb_refl : forall x, eqb x x = true.

Fixpoint distinct (l : list A) : bool :=
  match l with
  | [] => true
  | x :: r => negb (existsb (eqb x) r) && distinct r
  end.

Lemma distinct_NoDup (l : list A) : distinct l = true -> NoDup l.
Proof.
  induction l as [|x r IH]; intro H; [constructor|].
  cbn [distinct] in H. apply andb_true_iff in H. destruct H as [H1 H2].
  constructor; [|auto].
  intro I. apply negb_true_iff in H1.
  assert (existsb (eqb x) r = true) by (apply existsb_exists; eauto).
  congruence.
Qed.
End Distinct.

Arguments distinct {A} eqb l.
Arguments distinct_NoDup {A} eqb eqb_refl l _.




Lemma cell_ids_NoDup : NoDup (map GameScene.blockId cells).
Proof. apply (distinct_NoDup String.eqb String.eqb_refl). vm_compute. reflexivity. Qed.

Lemma cells_length : List.length cells = 486%nat.
Proof. reflexivity. Qed.

Lemma map_snd_combine_seq {A : Type} (l : list A) (a : nat) :
  map snd (combine (seq a (List.length l)) l) = l.
Proof.
  revert a. induction l as [|x l IH]; intro a; [reflexivity|].
  cbn [List.length seq combine map snd]. f_equal. apply IH.
Qed.


Lemma NoDup_map_eq {A B : Type} (f : A -> B) (l : list A) (x y : A) :
  NoDup (map f l) -> In x l -> In y l -> f x = f y -> x = y.
Proof.
  induction l as [|a l IH]; intros N Hx Hy E; [contradiction|].
  cbn [map] in N. inversion N as [|? ? Na Nl]; subst.
  destruct Hx as [<-|Hx], Hy as [<-|Hy]; auto.
  - exfalso. apply Na. rewrite E. apply in_map. assumption.
  - exfalso. apply Na. rewrite <- E. apply in_map. assumption.
Qed.

(** The blocks the grid effect creates, whatever the draws. *)
Definition gridBlocks (ds : nat -> Q) : list Block :=
  map (cellBlock ds) (combine (seq 0 486) cells).

Lemma init_blocks (ds : nat -> Q) : blocks (scene (init ds)) = gridBlocks ds.
Proof. unfold init. rewrite initGrid_eq. reflexivity. Qed.

Lemma init_rng (ds : nat -> Q) : rng (init ds) = mkRng ds 486.
Proof. unfold init. rewrite initGrid_eq. reflexivity. Qed.

Lemma cellBlock_pos (ds : nat -> Q) (ip : nat * Pos) :
  pos (cellBlock ds ip) = snd ip.
Proof. destruct ip as [i [[x y] z]]. reflexivity. Qed.

Lemma gridBlocks_pos (ds : nat -> Q) : map pos (gridBlocks ds) = cells.
Proof.
  unfold gridBlocks. rewrite map_map.
  rewrite (map_ext _ snd (cellBlock_pos ds)).
  change 486%nat with (List.length cells). apply map_snd_combine_seq.
Qed.

Lemma gridBlocks_shape (ds : nat -> Q) (b : Block) :
  In b (gridBlocks ds) ->
  id b = GameScene.blockId (pos b) /\ depth b = - snd (fst (pos b)).
Proof.
  unfold gridBlocks. intro H. apply in_map_iff in H.
  destruct H as ([i [[x y] z]] & <- & _). split; reflexivity.
Qed.

Lemma gridBlocks_ids (ds : nat -> Q) :
  map id (gridBlocks ds) = map GameScene.blockId cells.
Proof.
  rewrite <- (gridBlocks_pos ds), map_map. apply map_ext_in.
  intros b H. apply gridBlocks_shape in H. tauto.
Qed.


(** ** How events act on the scene *)

Lemma earliest_In (ts : list Timer) (t : Timer) :
  earliest ts = Some t -> In t ts.
Proof.
  revert t. induction ts as [|u r IH]; intros t H; [discriminate|].
  cbn [earliest] in H. destruct (earliest r) as [v|].
  - destruct (before u v); inversion H; subst; [left; reflexivity|].
    right. apply IH. reflexivity.
  - inversion H. left. reflexivity.
Qed.

(** The scene after [handleCollectGold(k)]. *)
Definition collectedScene (k : Z) (s : SceneState) : SceneState :=
  mkScene (blocks s) (filter (fun n => negb (nid n =? k)) (nuggets s))
          (particles s) (nuggetIdRef s) (particleIdRef s).

Lemma fire_scene (t : Timer) (w : World) :
  scene (fire t w) =
    match callback t with
    | OnCollect k _ => collectedScene k (scene w)
    | ResetCombo => scene w
    end.
Proof.
  unfold fire, runCallback. destruct (callback t) as [k c|].
  - rewrite handleCollectGold_scene. reflexivity.
  - reflexivity.
Qed.

Lemma scene_withInst (i : Instances) (w : World) : scene (withInst i w) = scene w.
Proof. reflexivity. Qed.

Lemma handleDig_inst_irrelevant (p : Pos) (g : bool) (w : World) (i : Instances) :
  scene (GameScene.handleDig p g (withInst i w)) = scene (GameScene.handleDig p g w).
Proof. rewrite !handleDig_eq. reflexivity. Qed.

Lemma clickBlock_scene (key : string) (w : World) :
  scene (clickBlock key w) = scene w
  \/ exists b, In b (blocks (scene w)) /\ id b = key
               /\ dugLevel (inst w) key = 2
               /\ scene (clickBlock key w) =
                    scene (GameScene.handleDig (pos b) (hasGold b) w).
Proof.
  unfold clickBlock.
  destruct (find (fun b => String.eqb (id b) key) (blocks (scene w)))
    as [b|] eqn:F; [|left; reflexivity].
  apply find_some in F. destruct F as [Hin Hid]. apply String.eqb_eq in Hid.
  unfold GroundBlock.handleClick.
  destruct (dugLevel (inst w) key <? 3); [|left; reflexivity].
  destruct (Z.eqb_spec (dugLevel (inst w) key) 2) as [E|E]; [|left; reflexivity].
  right. exists b. repeat split; try assumption.
  rewrite scene_withInst. apply handleDig_inst_irrelevant.
Qed.

Lemma clickNugget_scene (key : Z) (w : World) :
  scene (clickNugget key w) = scene w.
Proof.
  unfold clickNugget.
  destruct (find (fun n => nid n =? key) (nuggets (scene w))); [|reflexivity].
  unfold GoldNugget.handleClick.
  destruct (collected (inst w) key); reflexivity.
Qed.

Section SceneRelation.
Variable R : SceneState -> SceneState -> Prop.
Hypothesis R_refl : forall s, R s s.
Hypothesis R_trans : forall s1 s2 s3, R s1 s2 -> R s2 s3 -> R s1 s3.
Hypothesis R_dig :
  forall p g w, R (scene w) (scene (GameScene.handleDig p g w)).
Hypothesis R_collect : forall k s, R s (collectedScene k s).
Hypothesis R_frame :
  forall (v : Particle -> Vec3) s,
    R s (mkScene (blocks s) (nuggets s)
                 (map (fun p => mkParticle (pid p) (ppos p) (v p)) (particles s))
                 (nuggetIdRef s) (particleIdRef s)).

Lemma fire_rel (t : Timer) (w : World) : R (scene w) (scene (fire t w)).
Proof. rewrite fire_scene. destruct (callback t); auto. Qed.

Lemma runTimers_rel (fuel deadline : nat) (w : World) :
  R (scene w) (scene (runTimers fuel deadline w)).
Proof.
  revert w. induction fuel as [|fuel IH]; intro w; cbn [runTimers]; [auto|].
  destruct (earliest (pending (browser w))) as [t|]; [|auto].
  destruct (due t <=? deadline)%nat; [|auto].
  eapply R_trans; [apply (fire_rel t)|apply IH].
Qed.

Lemma step_rel (w : World) (e : Event) : R (scene w) (scene (step w e)).
Proof.
  destruct e as [key|key|delta|ms]; cbn [step].
  - destruct (clickBlock_scene key w) as [E|(b & _ & _ & _ & E)];
      rewrite E; auto.
  - rewrite clickNugget_scene. auto.
  - unfold frame. cbn [scene withInst withScene]. apply R_frame.
  - unfold elapse. cbn [scene withBrowser]. apply runTimers_rel.
Qed.

Lemma run_rel (es : list Event) (w : World) : R (scene w) (scene (run es w)).
Proof.
  revert w. induction es as [|e es IH]; intro w; cbn [run fold_left]; [auto|].
  eapply R_trans; [apply (step_rel w e)|apply IH].
Qed.
End SceneRelation.

(** Blocks are only ever filtered out. *)
Definition blocksFiltered (s s' : SceneState) : Prop :=
  exists f, blocks s' = filter f (blocks s).

Lemma filter_all {A : Type} (l : list A) : filter (fun _ => true) l = l.
Proof. induction l as [|x l IH]; cbn [filter]; congruence. Qed.

Lemma filter_filter {A : Type} (f g : A -> bool) (l : list A) :
  filter g (filter f l) = filter (fun x => f x && g x) l.
Proof.
  induction l as [|x l IH]; [reflexivity|]. cbn [filter].
  destruct (f x); cbn [filter andb]; [destruct (g x)|]; congruence.
Qed.

Lemma run_blocksFiltered (es : list Event) (w : World) :
  blocksFiltered (scene w) (scene (run es w)).
Proof.
  apply run_rel; unfold blocksFiltered.
  - intro s. exists (fun _ => true). symmetry. apply filter_all.
  - intros s1 s2 s3 (f & E1) (g & E2). exists (fun x => f x && g x).
    rewrite E2, E1. apply filter_filter.
  - intros p g w'. rewrite handleDig_eq. cbn [scene blocks]. eauto.
  - intros k s. exists (fun _ => true). symmetry. apply filter_all.
  - intros v s. exists (fun _ => true). symmetry. apply filter_all.
Qed.

Lemma run_blocks_in (es : list Event) (w : World) (b : Block) :
  In b (blocks (scene (run es w))) -> In b (blocks (scene w)).
Proof.
  destruct (run_blocksFiltered es w) as (f & E). rewrite E.
  intro H. apply filter_In in H. tauto.
Qed.

Lemma NoDup_map_filter {A B : Type} (f : A -> B) (g : A -> bool) (l : list A) :
  NoDup (map f l) -> NoDup (map f (filter g l)).
Proof.
  induction l as [|x l IH]; intro N; [constructor|].
  cbn [map] in N. inversion N as [|? ? Nx Nl]; subst.
  cbn [filter]. destruct (g x); [|auto].
  cbn [map]. constructor; [|auto].
  intro H. apply Nx. apply in_map_iff in H. destruct H as (y & E & Hy).
  apply filter_In in Hy. rewrite <- E. apply in_map. tauto.
Qed.

Lemma gridBlocks_cell (ds : nat -> Q) (x y z : Z) :
  (-4 <= x <= 4 /\ -5 <= y <= 0 /\ -4 <= z <= 4)
  <-> exists b, In b (gridBlocks ds) /\ pos b = (x, y, z).
Proof.
  rewrite <- in_cells, <- (gridBlocks_pos ds), in_map_iff.
  split; intros (b & H1 & H2); exists b; tauto.
Qed.

Example blockId_sample :
  GameScene.blockId (-4, -5, 3) = "-4--5-3"%string
  /\ GameScene.blockId (0, 0, 0) = "0-0-0"%string.
Proof. split; reflexivity. Qed.



(** ** C4, C5: excavation *)

Definition inUnit (ds : nat -> Q) : Prop := forall n, (0 <= ds n < 1)%Q.

Lemma zeros_inUnit : inUnit zeros.
Proof. intro n. unfold zeros. split; [apply Qle_refl | reflexivity]. Qed.

Lemma scatter_range (u : Q) :
  (0 <= u < 1)%Q ->
  (-4 <= (u - 0.5) * 8 < 4 /\ 2 <= u * 6 + 2 < 8)%Q.
Proof. intros [H1 H2]. split; split; lra. Qed.

Lemma scatter_onto (v : Q) :
  ((-4 <= v < 4 -> exists u, 0 <= u < 1 /\ (u - 0.5) * 8 == v)
   /\ (2 <= v < 8 -> exists u, 0 <= u < 1 /\ u * 6 + 2 == v))%Q.
Proof.
  split; intros [H1 H2].
  - exists (v * (1 # 8) + 0.5)%Q. split; [split; lra | ring].
  - exists ((v - 2) * (1 # 6))%Q. split; [split; lra | ring].
Qed.

(** On a scene whose blocks come from the grid, the id derived from the
    position of a block names that block only. *)
Lemma grid_block_by_id (ds : nat -> Q) (es : list Event) (b0 b : Block) :
  let s := scene (run es (init ds)) in
  In b0 (blocks s) -> In b (blocks s) ->
  (id b = GameScene.blockId (pos b0) <-> b = b0).
Proof.
  cbv zeta. intros H0 H.
  apply run_blocks_in in H0, H. rewrite init_blocks in H0, H.
  split; [|intros ->; apply (gridBlocks_shape ds b0 H0)].
  intro E. destruct (gridBlocks_shape ds b0 H0) as [E0 _]. rewrite <- E0 in E.
  apply (NoDup_map_eq id (gridBlocks ds)); try assumption.
  rewrite gridBlocks_ids. apply cell_ids_NoDup.
Qed.

(** C4, as amended.  An excavation adds exactly 1 to [digs]; appends exactly
    8 particles, all at the position raised by 0.5, the [k]-th with the next
    particle id and a velocity made of three draws of its own, so that for
    draws in [0, 1) the horizontal components lie in [-4, 4) and the
    vertical one in [2, 8), every value of these ranges being reached;
    removes from [blocks] the entries whose id is the one derived from the
    position, which on a scene of grid blocks is the excavated block and no
    other; and leaves [nuggets] as it was when there is no gold. *)
Theorem excavation_effects (p : Pos) (g : bool) (w : World) :
  let w' := GameScene.handleDig p g w in
  let ds := draws (rng w) in
  let c := cursor (rng w) in
  let fresh :=
    map (fun k =>
           mkParticle (particleIdRef (scene w) + Z.of_nat k)
                      (let '(x, y, z) := p in
                       (inject_Z x, inject_Z y + 0.5, inject_Z z)%Q)
                      ((ds (c + 3 * k)%nat - 0.5) * 8,
                       ds (c + 3 * k + 1)%nat * 6 + 2,
                       (ds (c + 3 * k + 2)%nat - 0.5) * 8)%Q)
        (seq 0 8) in
  digs (app w') = digs (app w) + 1
  /\ particles (scene w') = particles (scene w) ++ fresh
  /\ List.length fresh = 8%nat
  /\ (inUnit ds ->
      forall q, In q fresh ->
        let '(vx, vy, vz) := pvel q in
        (-4 <= vx < 4 /\ 2 <= vy < 8 /\ -4 <= vz < 4)%Q)
  /\ (forall v : Q,
        ((-4 <= v < 4 -> exists u, 0 <= u < 1 /\ (u - 0.5) * 8 == v)
         /\ (2 <= v < 8 -> exists u, 0 <= u < 1 /\ u * 6 + 2 == v))%Q)
  /\ blocks (scene w') =
       filter (fun b => negb (String.eqb (id b) (GameScene.blockId p)))
              (blocks (scene w))
  /\ (forall b, In b (blocks (scene w'))
                <-> In b (blocks (scene w)) /\ id b <> GameScene.blockId p)
  /\ (forall ds0 es b0,
        w = run es (init ds0) -> In b0 (blocks (scene w)) -> p = pos b0 ->
        forall b, In b (blocks (scene w'))
                  <-> In b (blocks (scene w)) /\ b <> b0)
  /\ (g = false -> nuggets (scene w') = nuggets (scene w)).
Proof.
  cbv zeta. rewrite handleDig_eq. cbn [scene app digs particles blocks nuggets].
  assert (B : forall b,
             In b (filter (fun b => negb (String.eqb (id b) (GameScene.blockId p)))
                          (blocks (scene w)))
             <-> In b (blocks (scene w)) /\ id b <> GameScene.blockId p).
  { intro b. rewrite filter_In, negb_true_iff.
    destruct (String.eqb_spec (id b) (GameScene.blockId p)); split;
      intros [H1 H2]; split; congruence. }
  split; [reflexivity|].
  split; [destruct p as [[x y] z]; reflexivity|].
  split; [reflexivity|].
  split.
  { intros U q H. apply in_map_iff in H. destruct H as (k & <- & _).
    cbn [pvel].
    pose proof (scatter_range _ (U (cursor (rng w) + 3 * k)%nat)).
    pose proof (scatter_range _ (U (cursor (rng w) + 3 * k + 1)%nat)).
    pose proof (scatter_range _ (U (cursor (rng w) + 3 * k + 2)%nat)).
    tauto. }
  split; [exact scatter_onto|].
  split; [reflexivity|].
  split; [exact B|].
  split; [|intros ->; reflexivity].
  intros ds0 es b0 -> H0 -> b. rewrite B. split; intros [H1 H2]; split; auto.
  - intros ->. apply H2. apply (grid_block_by_id ds0 es); auto.
  - intro E. apply H2. apply (grid_block_by_id ds0 es b0 b); auto.
Qed.

(** C4 as stated fails at the lower end of the horizontal range: the draw 0
    gives the horizontal velocity -4, which the open interval excludes. *)
Lemma horizontal_velocity_reaches_minus_4 :
  exists q,
    In q (particles (scene (GameScene.handleDig (0, 0, 0) false (init zeros))))
    /\ ~ (-4 < fst (fst (pvel q)) < 4)%Q.
Proof.
  eexists. split.
  - rewrite handleDig_eq. cbn [scene particles]. apply in_or_app. right.
    left. reflexivity.
  - cbn [spawned pvel fst]. rewrite init_rng. cbn [draws]. unfold zeros.
    intros [H _]. revert H. apply Qle_not_lt. apply Qle_lteq. right. reflexivity.
Qed.

(** The nuggets of a scene have pairwise distinct ids, all below the
    counter. *)
Definition nuggetsFresh (s : SceneState) : Prop :=
  NoDup (map nid (nuggets s))
  /\ forall n, In n (nuggets s) -> 0 <= nid n < nuggetIdRef s.

Lemma nuggetsFresh_collect (k : Z) (s : SceneState) :
  nuggetsFresh s -> nuggetsFresh (collectedScene k s).
Proof.
  intros [N B]. split; cbn [collectedScene nuggets nuggetIdRef].
  - apply NoDup_map_filter. assumption.
  - intros n H. apply filter_In in H. apply B. tauto.
Qed.

Lemma nuggetsFresh_dig (p : Pos) (g : bool) (w : World) :
  0 <= nuggetIdRef (scene w) -> nuggetsFresh (scene w) ->
  nuggetsFresh (scene (GameScene.handleDig p g w)).
Proof.
  intros P [N B]. rewrite handleDig_eq. cbn [scene].
  destruct g; split; cbn [nuggets nuggetIdRef]; try assumption.
  - rewrite map_app. cbn [map nid].
    apply NoDup_app; [assumption | repeat constructor; intros [] |].
    intros x Hx [<-|[]]. apply in_map_iff in Hx.
    destruct Hx as (n & E & Hn). apply B in Hn. lia.
  - intros n H. apply in_app_or in H. destruct H as [H|[<-|[]]].
    + apply B in H. lia.
    + cbn [nid]. lia.
Qed.

Lemma run_nuggetIdRef (es : list Event) (w : World) :
  nuggetIdRef (scene w) <= nuggetIdRef (scene (run es w)).
Proof.
  apply (run_rel (fun s s' => nuggetIdRef s <= nuggetIdRef s')).
  - intro s. lia.
  - intros s1 s2 s3. lia.
  - intros p g w'. rewrite handleDig_eq. cbn [scene nuggetIdRef].
    destruct g; lia.
  - intros k s. cbn [collectedScene nuggetIdRef]. lia.
  - intros v s. cbn [nuggetIdRef]. lia.
Qed.

Lemma run_nuggetsFresh (es : list Event) (w : World) :
  0 <= nuggetIdRef (scene w) /\ nuggetsFresh (scene w) ->
  0 <= nuggetIdRef (scene (run es w)) /\ nuggetsFresh (scene (run es w)).
Proof.
  apply (run_rel (fun s s' =>
                    0 <= nuggetIdRef s /\ nuggetsFresh s ->
                    0 <= nuggetIdRef s' /\ nuggetsFresh s')).
  - auto.
  - auto.
  - intros p g w' [P F]. split; [|apply nuggetsFresh_dig; assumption].
    rewrite handleDig_eq. cbn [scene nuggetIdRef]. destruct g; lia.
  - intros k s [P F]. split; [exact P | apply nuggetsFresh_collect; exact F].
  - intros v s [P F]. exact (conj P F).
Qed.

Lemma init_nuggetsFresh (ds : nat -> Q) :
  0 <= nuggetIdRef (scene (init ds)) /\ nuggetsFresh (scene (init ds)).
Proof.
  unfold init. rewrite initGrid_eq. cbn [scene nuggetIdRef]. split; [lia|].
  split; cbn [nuggets map]; [constructor | intros n []].
Qed.

(** C5.  An excavation with gold appends exactly one nugget, at the position
    raised by 0.5, whose id is the current value of the id counter, and adds
    1 to the counter; an excavation without gold leaves the counter alone and
    no event ever lowers it.  Hence the id given by any later excavation is
    greater than this one, and in every state the page can reach the nuggets
    present have pairwise distinct ids, all below the counter. *)
Theorem gold_excavation_spawns_nugget (p : Pos) (w : World) :
  let w' := GameScene.handleDig p true w in
  let this := nuggetIdRef (scene w) in
  nuggets (scene w') =
    nuggets (scene w) ++
      [mkNugget (let '(x, y, z) := p in
                 (inject_Z x, inject_Z y + 0.5, inject_Z z)%Q) this]
  /\ nuggetIdRef (scene w') = this + 1
  /\ (forall p0, nuggetIdRef (scene (GameScene.handleDig p0 false w)) = this)
  /\ (forall es, this < nuggetIdRef (scene (run es w')))
  /\ (forall es p2,
        let w2 := run es w' in
        exists later,
          nuggets (scene (GameScene.handleDig p2 true w2)) =
            nuggets (scene w2) ++ [later]
          /\ this < nid later)
  /\ (forall ds es,
        let s := scene (run es (init ds)) in
        NoDup (map nid (nuggets s))
        /\ forall n, In n (nuggets s) -> 0 <= nid n < nuggetIdRef s).
Proof.
  cbv zeta.
  assert (M : forall es,
             nuggetIdRef (scene w) <
               nuggetIdRef (scene (run es (GameScene.handleDig p true w)))).
  { intro es.
    pose proof (run_nuggetIdRef es (GameScene.handleDig p true w)) as H.
    rewrite handleDig_eq in H at 1. cbn [scene nuggetIdRef] in H. lia. }
  split; [rewrite handleDig_eq; destruct p as [[x y] z]; reflexivity|].
  split; [rewrite handleDig_eq; reflexivity|].
  split; [intro p0; rewrite handleDig_eq; reflexivity|].
  split; [exact M|].
  split.
  - intros es p2. eexists. split.
    + rewrite (handleDig_eq p2). cbn [scene nuggets]. reflexivity.
    + cbn [nid]. apply M.
  - intros ds es. apply run_nuggetsFresh. apply init_nuggetsFresh.
Qed.

(** ** C6: dirt particles *)

Lemma useFrame_opacity (delta : Q) (s : DirtParticle.State) :
  DirtParticle.opacity (DirtParticle.useFrame delta s) =
    match DirtParticle.mesh s with
    | Some _ => JS.max 0 (DirtParticle.opacity s - delta * 2)
    | None => DirtParticle.opacity s
    end.
Proof.
  unfold DirtParticle.useFrame.
  destruct (DirtParticle.mesh s) as [[[mx my] mz]|]; [|reflexivity].
  destruct (DirtParticle.velocity s) as [[vx vy] vz]. reflexivity.
Qed.

Lemma render_opacity (s : DirtParticle.State) :
  DirtParticle.opacity (DirtParticle.render s) = DirtParticle.opacity s.
Proof.
  unfold DirtParticle.render.
  destruct (DirtParticle.renders (DirtParticle.opacity s)); reflexivity.
Qed.

Lemma frame_opacity (delta : Q) (s : DirtParticle.State) :
  DirtParticle.opacity (DirtParticle.frame delta s) =
    match DirtParticle.mesh s with
    | Some _ => JS.max 0 (DirtParticle.opacity s - delta * 2)
    | None => DirtParticle.opacity s
    end.
Proof. unfold DirtParticle.frame. rewrite render_opacity. apply useFrame_opacity. Qed.

Lemma frame_fades (delta : Q) (s : DirtParticle.State) :
  (0 <= delta)%Q -> (0 <= DirtParticle.opacity s)%Q ->
  (0 <= DirtParticle.opacity (DirtParticle.frame delta s)
   <= DirtParticle.opacity s)%Q.
Proof.
  intros D O. rewrite frame_opacity.
  destruct (DirtParticle.mesh s); [|split; [assumption | apply Qle_refl]].
  destruct (max0_spec (DirtParticle.opacity s - delta * 2)) as [[H E]|[H E]];
    rewrite E; split; lra.
Qed.

Lemma frame_keeps_nonneg (delta : Q) (s : DirtParticle.State) :
  (0 <= DirtParticle.opacity s)%Q ->
  (0 <= DirtParticle.opacity (DirtParticle.frame delta s))%Q.
Proof.
  intro O. rewrite frame_opacity.
  destruct (DirtParticle.mesh s); [|assumption].
  destruct (max0_spec (DirtParticle.opacity s - delta * 2)) as [[H E]|[H E]];
    rewrite E; lra.
Qed.

Lemma frames_fade (deltas : list Q) (s : DirtParticle.State) :
  Forall (fun d => 0 <= d)%Q deltas -> (0 <= DirtParticle.opacity s)%Q ->
  (0 <= DirtParticle.opacity (DirtParticle.frames deltas s)
   <= DirtParticle.opacity s)%Q.
Proof.
  revert s. induction deltas as [|d ds IH]; intros s F O; cbn [DirtParticle.frames].
  - split; [assumption | apply Qle_refl].
  - inversion F as [|? ? Hd Hds]; subst.
    destruct (frame_fades d s Hd O) as [O1 L1].
    destruct (IH _ Hds O1) as [O2 L2].
    split; [assumption | eapply Qle_trans; eassumption].
Qed.

(** A particle whose opacity is 0 or less has no mesh after its render, and
    from then on a frame changes nothing. *)
Lemma render_faded (s : DirtParticle.State) :
  (DirtParticle.opacity s <= 0)%Q ->
  DirtParticle.renders (DirtParticle.opacity s) = false
  /\ DirtParticle.mesh (DirtParticle.render s) = None
  /\ forall delta,
       DirtParticle.frame delta (DirtParticle.render s) = DirtParticle.render s.
Proof.
  intro H.
  assert (R : DirtParticle.renders (DirtParticle.opacity s) = false).
  { unfold DirtParticle.renders. apply negb_false_iff. apply le_spec. exact H. }
  unfold DirtParticle.frame, DirtParticle.render. rewrite R.
  split; [reflexivity|]. split; [reflexivity|]. intro delta.
  unfold DirtParticle.useFrame. cbn [DirtParticle.mesh DirtParticle.opacity].
  rewrite R. reflexivity.
Qed.

(** The ids of the particles of a scene only ever grow at the end. *)
Definition particlesKept (s s' : SceneState) : Prop :=
  exists extra, map pid (particles s') = map pid (particles s) ++ extra.

Lemma run_particlesKept (es : list Event) (w : World) :
  particlesKept (scene w) (scene (run es w)).
Proof.
  apply run_rel; unfold particlesKept.
  - intro s. exists []. symmetry. apply app_nil_r.
  - intros s1 s2 s3 (x & E1) (y & E2). exists (x ++ y).
    rewrite E2, E1. symmetry. apply app_assoc.
  - intros p g w'. rewrite handleDig_eq. cbn [scene particles].
    rewrite map_app. eauto.
  - intros k s. exists []. symmetry. apply app_nil_r.
  - intros v s. exists []. cbn [particles]. rewrite map_map. cbn [pid].
    symmetry. apply app_nil_r.
Qed.

Lemma fire_inst (t : Timer) (w : World) : inst (fire t w) = inst w.
Proof.
  unfold fire, runCallback. destruct (callback t) as [k c|]; [|reflexivity].
  match goal with |- inst (GameScene.handleCollectGold ?c ?k ?w') = _ =>
    destruct (handleCollectGold_inst c k w') as [I _]; rewrite I end.
  reflexivity.
Qed.

Lemma runTimers_inst (fuel deadline : nat) (w : World) :
  inst (runTimers fuel deadline w) = inst w.
Proof.
  revert w. induction fuel as [|fuel IH]; intro w; cbn [runTimers]; [reflexivity|].
  destruct (earliest (pending (browser w))) as [t|]; [|reflexivity].
  destruct (due t <=? deadline)%nat; [|reflexivity].
  rewrite IH. apply fire_inst.
Qed.

Lemma elapse_inst (ms : nat) (w : World) : inst (elapse ms w) = inst w.
Proof. unfold elapse. cbn [inst withBrowser]. apply runTimers_inst. Qed.

Lemma handleDig_inst (p : Pos) (g : bool) (w : World) :
  inst (GameScene.handleDig p g w) = inst w.
Proof. rewrite handleDig_eq. reflexivity. Qed.

Lemma inst_withInst (i : Instances) (w : World) : inst (withInst i w) = i.
Proof. reflexivity. Qed.

Lemma opacity_mount (fresh : list Particle) (i : Instances) :
  opacity (mount fresh i) = opacity i.
Proof. reflexivity. Qed.

Lemma clickBlock_opacity (key : string) (w : World) :
  opacity (inst (clickBlock key w)) = opacity (inst w).
Proof.
  unfold clickBlock.
  destruct (find (fun b => String.eqb (id b) key) (blocks (scene w)));
    [|reflexivity].
  destruct (GroundBlock.handleClick b (dugLevel (inst w) key)) as [d [[p g]|]].
  - rewrite inst_withInst, opacity_mount, handleDig_inst, inst_withInst.
    reflexivity.
  - rewrite inst_withInst. reflexivity.
Qed.

Lemma clickNugget_opacity (key : Z) (w : World) :
  opacity (inst (clickNugget key w)) = opacity (inst w).
Proof.
  unfold clickNugget.
  destruct (find (fun n => nid n =? key) (nuggets (scene w))); [|reflexivity].
  destruct (GoldNugget.handleClick (nid n) (collected (inst w) key))
    as [c [[ms k]|]]; reflexivity.
Qed.

Lemma frame_world_opacity (delta : Q) (w : World) (k : Z) :
  opacity (inst (frame delta w)) k = opacity (inst w) k
  \/ exists p,
       In p (particles (scene w)) /\ pid p = k
       /\ opacity (inst (frame delta w)) k =
            DirtParticle.opacity
              (DirtParticle.frame delta
                 (DirtParticle.mkState (meshRef (inst w) k) (pvel p)
                                       (opacity (inst w) k))).
Proof.
  unfold frame. cbn [inst withInst opacity].
  destruct (find (fun p => pid p =? k) (particles (scene w))) as [p|] eqn:F;
    [|left; reflexivity].
  apply find_some in F. destruct F as [Hin E]. apply Z.eqb_eq in E.
  right. exists p. split; [assumption|]. split; [assumption|].
  unfold particleState. rewrite E. reflexivity.
Qed.

(** Frames advance time: their [delta] is not negative. *)
Definition forward (e : Event) : Prop :=
  match e with Frame delta => (0 <= delta)%Q | _ => True end.

Definition opaque_ok (w : World) : Prop :=
  forall k, (0 <= opacity (inst w) k)%Q.

Lemma step_opacity (w : World) (e : Event) (k : Z) :
  opaque_ok w -> forward e ->
  (0 <= opacity (inst (step w e)) k <= opacity (inst w) k)%Q.
Proof.
  intros O F. specialize (O k).
  destruct e as [key|key|delta|ms]; cbn [step].
  - rewrite clickBlock_opacity. split; [assumption | apply Qle_refl].
  - rewrite clickNugget_opacity. split; [assumption | apply Qle_refl].
  - destruct (frame_world_opacity delta w k) as [E|(p & _ & _ & E)]; rewrite E.
    + split; [assumption | apply Qle_refl].
    + apply (frame_fades delta
               (DirtParticle.mkState (meshRef (inst w) k) (pvel p)
                                     (opacity (inst w) k))); assumption.
  - rewrite elapse_inst. split; [assumption | apply Qle_refl].
Qed.

Lemma run_opacity (es : list Event) (w : World) (k : Z) :
  opaque_ok w -> Forall forward es ->
  (0 <= opacity (inst (run es w)) k <= opacity (inst w) k)%Q.
Proof.
  revert w. induction es as [|e es IH]; intros w O F; cbn [run fold_left].
  - split; [apply O | apply Qle_refl].
  - inversion F as [|? ? Fe Fes]; subst.
    assert (O' : opaque_ok (step w e)).
    { intro j. apply (step_opacity w e j O Fe). }
    destruct (IH (step w e) O' Fes) as [L U]. split; [exact L|].
    eapply Qle_trans; [exact U|]. apply (step_opacity w e k O Fe).
Qed.

Lemma init_opaque_ok (ds : nat -> Q) : opaque_ok (init ds).
Proof. intro k. unfold init. rewrite initGrid_eq. cbn [inst opacity]. lra. Qed.

Lemma step_opaque_ok (w : World) (e : Event) : opaque_ok w -> opaque_ok (step w e).
Proof.
  intros O k. specialize (O k).
  destruct e as [key|key|delta|ms]; cbn [step].
  - rewrite clickBlock_opacity. assumption.
  - rewrite clickNugget_opacity. assumption.
  - destruct (frame_world_opacity delta w k) as [E|(p & _ & _ & E)]; rewrite E.
    + assumption.
    + apply (frame_keeps_nonneg delta
               (DirtParticle.mkState (meshRef (inst w) k) (pvel p)
                                     (opacity (inst w) k))). assumption.
  - rewrite elapse_inst. assumption.
Qed.

Lemma run_opaque_ok (es : list Event) (w : World) :
  opaque_ok w -> opaque_ok (run es w).
Proof.
  revert w. induction es as [|e es IH]; intros w O; cbn [run fold_left]; [exact O|].
  apply IH. apply step_opaque_ok. exact O.
Qed.

(** C6, as amended.  A frame sets the opacity of a mounted particle to
    [max(0, opacity - 2 * delta)]; with [delta >= 0] the opacity never grows
    and never drops below 0, over one frame, over any run of frames, and in
    the running page over any run of events.  A particle whose opacity has
    reached 0 renders nothing, loses its mesh, and is left unchanged by every
    later frame.  The owner does not remove it: whatever the events, the ids
    of [particles] are the earlier ones followed by those appended since. *)
Theorem particle_opacity_fades :
  (forall delta s,
     DirtParticle.opacity (DirtParticle.useFrame delta s) =
       match DirtParticle.mesh s with
       | Some _ => JS.max 0 (DirtParticle.opacity s - delta * 2)
       | None => DirtParticle.opacity s
       end)
  /\ (forall q : Q,
        ((q <= 0 /\ JS.max 0 q == 0) \/ (0 < q /\ JS.max 0 q == q))%Q)
  /\ (forall delta s,
        (0 <= delta)%Q -> (0 <= DirtParticle.opacity s)%Q ->
        (0 <= DirtParticle.opacity (DirtParticle.frame delta s)
         <= DirtParticle.opacity s)%Q)
  /\ (forall deltas s,
        Forall (fun d => 0 <= d)%Q deltas -> (0 <= DirtParticle.opacity s)%Q ->
        (0 <= DirtParticle.opacity (DirtParticle.frames deltas s)
         <= DirtParticle.opacity s)%Q)
  /\ (forall s,
        (DirtParticle.opacity s <= 0)%Q ->
        DirtParticle.renders (DirtParticle.opacity s) = false
        /\ DirtParticle.mesh (DirtParticle.render s) = None
        /\ forall delta,
             DirtParticle.frame delta (DirtParticle.render s) =
               DirtParticle.render s)
  /\ (forall ds es es' k,
        Forall forward es' ->
        let w := run es (init ds) in
        (0 <= opacity (inst (run es' w)) k <= opacity (inst w) k)%Q)
  /\ (forall es w,
        exists extra,
          map pid (particles (scene (run es w))) =
            map pid (particles (scene w)) ++ extra).
Proof.
  split; [exact useFrame_opacity|].
  split; [exact max0_spec|].
  split; [exact frame_fades|].
  split; [exact frames_fade|].
  split; [exact render_faded|].
  split; [|exact run_particlesKept].
  intros ds es es' k F. cbv zeta. apply run_opacity; [|exact F].
  apply run_opaque_ok. apply init_opaque_ok.
Qed.

(** C6 as stated fails on removal: after an excavation and a frame of half a
    second the opacity of particle 0 has gone from 1 to 0 and it renders
    nothing, yet it is in [particles], and stays there whatever follows. *)
Lemma faded_particle_is_never_removed :
  let w := run (dig "0-0-0" ++ [Frame 0.5]) (init zeros) in
  (opacity (inst (run (dig "0-0-0") (init zeros))) 0 == 1)%Q
  /\ (opacity (inst w) 0 == 0)%Q
  /\ meshRef (inst w) 0 = None
  /\ map pid (particles (scene w)) = [0; 1; 2; 3; 4; 5; 6; 7]
  /\ forall es, In 0 (map pid (particles (scene (run es w)))).
Proof.
  cbv zeta.
  assert (P : map pid (particles
                (scene (run (dig "0-0-0" ++ [Frame 0.5]) (init zeros)))) =
              [0; 1; 2; 3; 4; 5; 6; 7]) by (vm_compute; reflexivity).
  split; [vm_compute; reflexivity|].
  split; [vm_compute; reflexivity|].
  split; [vm_compute; reflexivity|].
  split; [exact P|].
  intro es.
  destruct (run_particlesKept es
              (run (dig "0-0-0" ++ [Frame 0.5]) (init zeros))) as (extra & E).
  rewrite E, P. apply in_or_app. left. left. reflexivity.
Qed.

(** ** Timers *)

Definition isReset (t : Timer) : bool :=
  match callback t with ResetCombo => true | OnCollect _ _ => false end.

(** Is the timer [u] the one [clearTimeout] is called on, the ref being [r]? *)
Definition cleared (r : option nat) (u : Timer) : Prop :=
  match r with
  | Some h => JS.truthy h = true /\ handle u = h
  | None => False
  end.

Lemma in_clearTimeout (h : nat) (b : Browser) (u : Timer) :
  In u (pending (clearTimeout h b)) <-> In u (pending b) /\ handle u <> h.
Proof.
  unfold clearTimeout. cbn [pending]. rewrite filter_In, negb_true_iff.
  rewrite Nat.eqb_neq. reflexivity.
Qed.

Lemma in_setTimeout (cb : Callback) (ms : nat) (b : Browser) (u : Timer) :
  In u (pending (snd (setTimeout cb ms b)))
  <-> In u (pending b) \/ u = mkTimer (nextHandle b) (now b + ms) cb.
Proof.
  unfold setTimeout. cbn [snd pending]. rewrite in_app_iff. cbn [In].
  intuition congruence.
Qed.

(** The browser and the ref after [handleGoldCollect]. *)
Lemma handleGoldCollect_browser (c : Z) (w : World) :
  let b := browser w in
  let b' := browser (App.handleGoldCollect c w) in
  now b' = now b
  /\ nextHandle b' = S (nextHandle b)
  /\ comboTimerRef (app (App.handleGoldCollect c w)) = Some (nextHandle b)
  /\ forall u,
       In u (pending b')
       <-> (In u (pending b) /\ ~ cleared (comboTimerRef (app w)) u)
           \/ u = mkTimer (nextHandle b) (now b + 2000) ResetCombo.
Proof.
  cbv zeta. unfold App.handleGoldCollect, cleared.
  destruct (comboTimerRef (app w)) as [h|]; [destruct (JS.truthy h) eqn:T|];
    cbn [browser withBrowser withApp app comboTimerRef setTimeout now nextHandle
         pending clearTimeout];
    (split; [reflexivity|]); (split; [reflexivity|]); (split; [reflexivity|]);
    intro u; rewrite in_app_iff; cbn [In].
  - rewrite filter_In, negb_true_iff, Nat.eqb_neq. intuition congruence.
  - intuition congruence.
  - intuition congruence.
Qed.

(** C9.  [handleCollectGold(id)] keeps in [nuggets] exactly the entries whose
    id is not [id], in their order; [blocks], [particles], [digs], the two id
    counters, the instances and the oracle are as before.  What changes
    besides is [gold] (by the bonus), [combo] (by 1) and the combo timer:
    the timer the ref pointed to is cleared and a new one, due in 2000 ms,
    takes its place; the clock and the other timers are untouched. *)
Theorem collection_touches_only_score_and_nuggets (c k : Z) (w : World) :
  let w' := GameScene.handleCollectGold c k w in
  nuggets (scene w') = filter (fun n => negb (nid n =? k)) (nuggets (scene w))
  /\ (forall n, In n (nuggets (scene w'))
                <-> In n (nuggets (scene w)) /\ nid n <> k)
  /\ blocks (scene w') = blocks (scene w)
  /\ particles (scene w') = particles (scene w)
  /\ digs (app w') = digs (app w)
  /\ nuggetIdRef (scene w') = nuggetIdRef (scene w)
  /\ particleIdRef (scene w') = particleIdRef (scene w)
  /\ inst w' = inst w
  /\ rng w' = rng w
  /\ gold (app w') = gold (app w) + (c / 3 + 1)
  /\ combo (app w') = combo (app w) + 1
  /\ comboTimerRef (app w') = Some (nextHandle (browser w))
  /\ now (browser w') = now (browser w)
  /\ (forall u,
        In u (pending (browser w'))
        <-> (In u (pending (browser w)) /\ ~ cleared (comboTimerRef (app w)) u)
            \/ u = mkTimer (nextHandle (browser w))
                           (now (browser w) + 2000) ResetCombo).
Proof.
  cbv zeta.
  destruct (handleCollectGold_app c k w) as (G & C & D).
  destruct (handleCollectGold_inst c k w) as (I & R).
  rewrite handleCollectGold_scene, G, C, D, I, R.
  cbn [collectedScene nuggets blocks particles nuggetIdRef particleIdRef].
  unfold GameScene.handleCollectGold.
  match goal with |- context [App.handleGoldCollect c ?w0] =>
    destruct (handleGoldCollect_browser c w0) as (N & _ & F & P) end.
  split; [reflexivity|]. split.
  { intro n. rewrite filter_In, negb_true_iff, Z.eqb_neq. reflexivity. }
  repeat (split; [reflexivity|]).
  split; [exact F|]. split; [exact N|]. exact P.
Qed.

(** *** The timer table is well formed in every reachable state *)

(** Handles are positive, issued once, and below the next one; the pending
    timer a truthy ref points to, if any, is the combo reset, and there is no
    other combo reset. *)
Definition timersOk (b : Browser) (r : option nat) : Prop :=
  (forall t, In t (pending b) -> (0 < handle t < nextHandle b)%nat)
  /\ NoDup (map handle (pending b))
  /\ (forall t, In t (pending b) ->
        (callback t = ResetCombo <-> r = Some (handle t)))
  /\ (forall h, r = Some h -> (h < nextHandle b)%nat).

Definition TimerInv (w : World) : Prop :=
  timersOk (browser w) (comboTimerRef (app w)).

Lemma timersOk_remove (b : Browser) (r : option nat) (h n : nat) :
  timersOk b r ->
  timersOk (mkBrowser n (nextHandle b)
                      (filter (fun u => negb (handle u =? h)%nat) (pending b))) r.
Proof.
  intros (A & B & C & D). unfold timersOk. cbn [pending nextHandle].
  split; [|split; [|split]].
  - intros t H. apply filter_In in H. apply A. tauto.
  - apply NoDup_map_filter. exact B.
  - intros t H. apply filter_In in H. apply C. tauto.
  - exact D.
Qed.

Lemma timersOk_clock (b : Browser) (r : option nat) (n : nat) :
  timersOk b r -> timersOk (mkBrowser n (nextHandle b) (pending b)) r.
Proof. intro H. exact H. Qed.

Lemma timersOk_setTimeout_collect (b : Browser) (r : option nat)
      (k c : Z) (ms : nat) :
  (0 < nextHandle b)%nat -> timersOk b r ->
  timersOk (snd (setTimeout (OnCollect k c) ms b)) r.
Proof.
  intros P (A & B & C & D). unfold timersOk, setTimeout.
  cbn [snd pending nextHandle].
  split; [|split; [|split]].
  - intros t H. apply in_app_or in H. destruct H as [H|[<-|[]]].
    + apply A in H. lia.
    + cbn [handle]. lia.
  - rewrite map_app. cbn [map handle].
    apply NoDup_app; [exact B | repeat constructor; intros [] |].
    intros x Hx [<-|[]]. apply in_map_iff in Hx. destruct Hx as (t & E & Ht).
    apply A in Ht. lia.
  - intros t H. apply in_app_or in H. destruct H as [H|[<-|[]]].
    + apply C. exact H.
    + cbn [callback handle]. split; [discriminate|].
      intro E. apply D in E. lia.
  - intros h E. apply D in E. lia.
Qed.

Lemma TimerInv_handleGoldCollect (c : Z) (w : World) :
  (0 < nextHandle (browser w))%nat ->
  TimerInv w -> TimerInv (App.handleGoldCollect c w).
Proof.
  unfold TimerInv. intros P (A & B & C & D).
  assert (K : forall l : list Timer,
             (forall t, In t l -> In t (pending (browser w))) ->
             (forall t, In t l -> callback t <> ResetCombo) ->
             NoDup (map handle l) ->
             timersOk (mkBrowser (now (browser w)) (S (nextHandle (browser w)))
                         (l ++ [mkTimer (nextHandle (browser w))
                                        (now (browser w) + 2000) ResetCombo]))
                      (Some (nextHandle (browser w)))).
  { intros l Sub NR ND. unfold timersOk. cbn [pending nextHandle].
    split; [|split; [|split]].
    - intros t H. apply in_app_or in H. destruct H as [H|[<-|[]]].
      + apply Sub, A in H. lia.
      + cbn [handle]. lia.
    - rewrite map_app. cbn [map handle].
      apply NoDup_app; [exact ND | repeat constructor; intros [] |].
      intros x Hx [<-|[]]. apply in_map_iff in Hx. destruct Hx as (t & E & Ht).
      apply Sub, A in Ht. lia.
    - intros t H. apply in_app_or in H. destruct H as [H|[<-|[]]].
      + split; [intro E; destruct (NR t H E)|].
        intro E. inversion E. apply Sub, A in H. lia.
      + cbn [callback handle]. tauto.
    - intros h E. inversion E. lia. }
  unfold App.handleGoldCollect.
  destruct (comboTimerRef (app w)) as [h|] eqn:R; [destruct (JS.truthy h) eqn:T|];
    cbn [browser withBrowser withApp app comboTimerRef setTimeout now nextHandle
         pending clearTimeout]; apply K.
  - intros t H. apply filter_In in H. tauto.
  - intros t H E. apply filter_In in H. destruct H as [H N].
    apply (C t H) in E. inversion E. subst.
    rewrite Nat.eqb_refl in N. discriminate.
  - apply NoDup_map_filter. exact B.
  - auto.
  - intros t H E. apply (C t H) in E. inversion E. subst.
    apply A in H. unfold JS.truthy in T. apply negb_false_iff in T.
    apply Nat.eqb_eq in T. lia.
  - exact B.
  - auto.
  - intros t H E. apply (C t H) in E. discriminate.
  - exact B.
Qed.

Lemma clickBlock_shell (key : string) (w : World) :
  browser (clickBlock key w) = browser w
  /\ gold (app (clickBlock key w)) = gold (app w)
  /\ combo (app (clickBlock key w)) = combo (app w)
  /\ comboTimerRef (app (clickBlock key w)) = comboTimerRef (app w)
  /\ collected (inst (clickBlock key w)) = collected (inst w).
Proof.
  unfold clickBlock.
  destruct (find (fun b => String.eqb (id b) key) (blocks (scene w)));
    [|repeat split; reflexivity].
  destruct (GroundBlock.handleClick b (dugLevel (inst w) key)) as [d [[p g]|]].
  - rewrite handleDig_eq. repeat split; reflexivity.
  - repeat split; reflexivity.
Qed.

(** The three ways a click on a nugget can go. *)
Lemma clickNugget_cases (key : Z) (w : World) :
  let i := inst w in
  let marked :=
    withInst (mkInst (dugLevel i) (updZ (collected i) key true)
                     (opacity i) (meshRef i)) w in
  (~ In key (map nid (nuggets (scene w))) /\ clickNugget key w = w)
  \/ (In key (map nid (nuggets (scene w))) /\ collected i key = true
      /\ clickNugget key w = marked)
  \/ (In key (map nid (nuggets (scene w))) /\ collected i key = false
      /\ clickNugget key w =
           withBrowser
             (snd (setTimeout (OnCollect key (combo (app w))) 300 (browser w)))
             marked).
Proof.
  cbv zeta. unfold clickNugget.
  destruct (find (fun n => nid n =? key) (nuggets (scene w))) as [n|] eqn:F.
  - apply find_some in F. destruct F as [Hin E]. apply Z.eqb_eq in E.
    assert (In key (map nid (nuggets (scene w)))).
    { rewrite <- E. apply in_map. exact Hin. }
    unfold GoldNugget.handleClick.
    destruct (collected (inst w) key) eqn:C; cbn [negb].
    + right. left. auto.
    + right. right. rewrite E. auto.
  - left. split; [|reflexivity].
    intro H. apply in_map_iff in H. destruct H as (n & E & Hin).
    apply (find_none _ _ F) in Hin. rewrite E, Z.eqb_refl in Hin. discriminate.
Qed.

Section Invariant.
Variable I : World -> Prop.
Hypothesis I_clickBlock : forall w key, I w -> I (clickBlock key w).
Hypothesis I_clickNugget : forall w key, I w -> I (clickNugget key w).
Hypothesis I_frame : forall w delta, I w -> I (frame delta w).
Hypothesis I_fire :
  forall w t, I w -> In t (pending (browser w)) -> I (fire t w).
Hypothesis I_clock :
  forall w n, I w ->
    I (withBrowser (mkBrowser n (nextHandle (browser w))
                              (pending (browser w))) w).

Lemma runTimers_invariant (fuel deadline : nat) (w : World) :
  I w -> I (runTimers fuel deadline w).
Proof.
  revert w. induction fuel as [|fuel IH]; intros w H; cbn [runTimers]; [exact H|].
  destruct (earliest (pending (browser w))) as [t|] eqn:E; [|exact H].
  destruct (due t <=? deadline)%nat; [|exact H].
  apply IH. apply I_fire; [exact H|]. apply earliest_In. exact E.
Qed.

Lemma step_invariant (w : World) (e : Event) : I w -> I (step w e).
Proof.
  intro H. destruct e as [key|key|delta|ms]; cbn [step]; auto.
  unfold elapse. apply I_clock. apply runTimers_invariant. exact H.
Qed.

Lemma run_invariant (es : list Event) (w : World) : I w -> I (run es w).
Proof.
  revert w. induction es as [|e es IH]; intros w H; cbn [run fold_left]; [exact H|].
  apply IH. apply step_invariant. exact H.
Qed.
End Invariant.

Definition TimersGood (w : World) : Prop :=
  (0 < nextHandle (browser w))%nat /\ TimerInv w.

Lemma handleGoldCollect_TimersGood (c : Z) (w : World) :
  TimersGood w -> TimersGood (App.handleGoldCollect c w).
Proof.
  intros [P T]. split; [|apply TimerInv_handleGoldCollect; assumption].
  destruct (handleGoldCollect_browser c w) as (_ & N & _). rewrite N. lia.
Qed.

Lemma fire_TimersGood (w : World) (t : Timer) :
  TimersGood w -> TimersGood (fire t w).
Proof.
  intros [P T]. unfold fire.
  set (w1 := withBrowser _ w).
  assert (G1 : TimersGood w1).
  { split; [exact P|]. unfold TimerInv, w1. cbn [browser withBrowser app].
    apply timersOk_remove. exact T. }
  unfold runCallback. destruct (callback t) as [k c|].
  - unfold GameScene.handleCollectGold.
    apply handleGoldCollect_TimersGood. exact G1.
  - exact G1.
Qed.

Lemma run_TimersGood (es : list Event) (w : World) :
  TimersGood w -> TimersGood (run es w).
Proof.
  apply run_invariant.
  - intros w0 key [P T]. unfold TimersGood, TimerInv.
    destruct (clickBlock_shell key w0) as (B & _ & _ & R & _).
    rewrite B, R. split; assumption.
  - intros w0 key [P T].
    destruct (clickNugget_cases key w0) as [[_ E]|[(_ & _ & E)|(_ & _ & E)]];
      rewrite E; try (split; assumption).
    split.
    + cbn [browser withBrowser setTimeout snd nextHandle]. lia.
    + unfold TimerInv. cbn [browser withBrowser app withInst].
      apply timersOk_setTimeout_collect; assumption.
  - intros w0 delta H. exact H.
  - intros w0 t H _. apply fire_TimersGood. exact H.
  - intros w0 n H. exact H.
Qed.

Lemma init_TimersGood (ds : nat -> Q) : TimersGood (init ds).
Proof.
  unfold init. rewrite initGrid_eq.
  split; [cbn [browser nextHandle]; lia|].
  unfold TimerInv, timersOk. cbn [browser app pending comboTimerRef nextHandle].
  split; [intros t []|]. split; [constructor|].
  split; [intros t []|]. intros h E. discriminate.
Qed.

(** *** The passing of time *)

Lemma before_due (a b : Timer) :
  if before a b then (due a <= due b)%nat else (due b <= due a)%nat.
Proof.
  unfold before.
  destruct (Nat.ltb_spec (due a) (due b)); cbn [orb]; [lia|].
  destruct (Nat.eqb_spec (due a) (due b)); cbn [andb]; [|lia].
  destruct (handle a <=? handle b)%nat; lia.
Qed.

Lemma earliest_min (ts : list Timer) (t : Timer) :
  earliest ts = Some t -> forall u, In u ts -> (due t <= due u)%nat.
Proof.
  revert t. induction ts as [|x r IH]; intros t H u Hu; [contradiction|].
  cbn [earliest] in H. destruct (earliest r) as [v|] eqn:E.
  - specialize (IH v eq_refl). pose proof (before_due x v) as B.
    destruct (before x v); inversion H; subst; destruct Hu as [<-|Hu];
      try lia; specialize (IH u Hu); lia.
  - inversion H; subst. destruct Hu as [<-|Hu]; [lia|].
    destruct r as [|y r]; [contradiction|]. cbn [earliest] in E.
    destruct (earliest r) as [z|]; [destruct (before y z)|]; discriminate.
Qed.

Lemma earliest_none (ts : list Timer) : earliest ts = None -> ts = [].
Proof.
  destruct ts as [|x r]; [reflexivity|]. cbn [earliest].
  destruct (earliest r) as [v|]; [destruct (before x v)|]; discriminate.
Qed.


Lemma weight_le_sum (t : Timer) (ts : list Timer) :
  In t ts -> (weight t <= list_sum (map weight ts))%nat.
Proof.
  induction ts as [|x r IH]; intro H; [contradiction|].
  cbn [map list_sum fold_right]. destruct H as [<-|H]; [lia|].
  apply IH in H. unfold list_sum in H. lia.
Qed.

Lemma weight_pos (t : Timer) : (1 <= weight t)%nat.
Proof. unfold weight. destruct (callback t); lia. Qed.




Lemma isReset_true (t : Timer) : isReset t = true <-> callback t = ResetCombo.
Proof. unfold isReset. destruct (callback t); split; congruence. Qed.


Lemma sum_filter_le (f : Timer -> bool) (l : list Timer) :
  (list_sum (map weight (filter f l)) <= list_sum (map weight l))%nat.
Proof.
  induction l as [|x l IH]; [apply Nat.le_refl|]. cbn [filter].
  unfold list_sum in *. destruct (f x); cbn [map fold_right]; lia.
Qed.

Lemma sum_remove (t : Timer) (l : list Timer) :
  In t l ->
  (list_sum (map weight (filter (fun u => negb (handle u =? handle t)%nat) l))
   + weight t <= list_sum (map weight l))%nat.
Proof.
  induction l as [|x l IH]; intro H; [contradiction|]. cbn [filter].
  destruct H as [->|H].
  - rewrite Nat.eqb_refl. cbn [negb].
    pose proof (sum_filter_le (fun u => negb (handle u =? handle t)%nat) l) as S.
    unfold list_sum in *. cbn [map fold_right]. lia.
  - specialize (IH H). unfold list_sum in *.
    destruct (negb (handle x =? handle t)%nat); cbn [map fold_right]; lia.
Qed.

Lemma firings_handleGoldCollect (c : Z) (w : World) :
  (firings (App.handleGoldCollect c w) <= firings w + 1)%nat.
Proof.
  unfold firings, App.handleGoldCollect.
  destruct (comboTimerRef (app w)) as [h|]; [destruct (JS.truthy h)|];
    cbn [browser withBrowser withApp setTimeout pending clearTimeout];
    rewrite map_app, list_sum_app;
    try pose proof (sum_filter_le (fun t => negb (handle t =? h)%nat)
                                  (pending (browser w)));
    unfold list_sum in *; cbn [map fold_right weight callback]; lia.
Qed.

Lemma firings_fire (t : Timer) (w : World) :
  In t (pending (browser w)) -> (firings (fire t w) < firings w)%nat.
Proof.
  intro H. pose proof (sum_remove t _ H) as S. unfold fire.
  set (w1 := withBrowser _ w).
  assert (F1 : (firings w1 + weight t <= firings w)%nat) by exact S.
  unfold runCallback, weight in *. destruct (callback t) as [k c|].
  - unfold GameScene.handleCollectGold.
    match goal with |- (firings (App.handleGoldCollect c ?w0) < _)%nat =>
      pose proof (firings_handleGoldCollect c w0) as G;
      change (firings w0) with (firings w1) in G end.
    lia.
  - change (firings (App.resetCombo w1)) with (firings w1). lia.
Qed.

(** The fuel of [elapse] is enough: when it returns, every timer that was due
    has run. *)
Lemma runTimers_complete (fuel deadline : nat) (w : World) :
  (firings w <= fuel)%nat ->
  forall t, In t (pending (browser (runTimers fuel deadline w))) ->
            (deadline < due t)%nat.
Proof.
  revert w. induction fuel as [|fuel IH]; intros w F t H; cbn [runTimers] in H.
  - pose proof (weight_le_sum t _ H). pose proof (weight_pos t).
    unfold firings in F. lia.
  - destruct (earliest (pending (browser w))) as [u|] eqn:E.
    + destruct (Nat.leb_spec (due u) deadline) as [L|L].
      * apply (IH (fire u w)); [|exact H].
        apply earliest_In in E. pose proof (firings_fire u w E). lia.
      * pose proof (earliest_min _ _ E t H). lia.
    + apply earliest_none in E. rewrite E in H. contradiction.
Qed.

Lemma elapse_complete (ms : nat) (w : World) :
  now (browser (elapse ms w)) = (now (browser w) + ms)%nat
  /\ forall t, In t (pending (browser (elapse ms w))) ->
               (now (browser w) + ms < due t)%nat.
Proof.
  unfold elapse. cbn [browser withBrowser now pending]. split; [reflexivity|].
  apply runTimers_complete. apply Nat.le_refl.
Qed.







(** ** C8: the combo decay timer *)

(** The scenario of the specification, on the running page: two nuggets are
    collected 1000 ms apart (bonuses 1 and 1, combo 2); three seconds of
    silence reset the combo; the third collection starts again at bonus 1. *)
Example combo_scenario :
  let w0 := run (dig "0-0-0" ++ dig "1-0-0" ++ dig "2-0-0") (init zeros) in
  let w1 := run [ClickNugget 0; Elapse 1000] w0 in
  let w2 := run [ClickNugget 1; Elapse 300] w1 in
  let w3 := run [Elapse 3000] w2 in
  let w4 := run [ClickNugget 2; Elapse 300] w3 in
  map (fun w => (gold (app w), combo (app w))) [w0; w1; w2; w3; w4] =
    [(0, 0); (1, 1); (2, 2); (2, 0); (3, 1)].
Proof. vm_compute. reflexivity. Qed.


(** ** C7: collecting a nugget *)

(** The timer [t] holds [() => onCollect(k)]. *)
Definition collectsOf (k : Z) (t : Timer) : Prop :=
  exists c, callback t = OnCollect k c.

Lemma collectsOf_isReset (k : Z) (t : Timer) : collectsOf k t -> isReset t = false.
Proof. intros (c & E). unfold isReset. rewrite E. reflexivity. Qed.

(** Nuggets and their timers, in terms of the timer table [b], the combo ref
    [r], the nuggets [ns], the id counter [ref] and the [collected] flags:
    a nugget has at most one timer; a timer belongs to a nugget that is in
    the scene and collected; a collected nugget in the scene has its timer;
    ids not issued yet are not collected. *)
Definition ntOk (b : Browser) (r : option nat) (ns : list Nugget) (ref : Z)
           (col : Z -> bool) : Prop :=
  ((0 < nextHandle b)%nat /\ timersOk b r)
  /\ (0 <= ref /\ NoDup (map nid ns)
      /\ forall n, In n ns -> 0 <= nid n < ref)
  /\ (forall k, ref <= k -> col k = false)
  /\ (forall t1 t2 k, In t1 (pending b) -> In t2 (pending b) ->
                      collectsOf k t1 -> collectsOf k t2 -> t1 = t2)
  /\ (forall t k, In t (pending b) -> collectsOf k t ->
                  In k (map nid ns) /\ col k = true)
  /\ (forall k, In k (map nid ns) -> col k = true ->
                exists t, In t (pending b) /\ collectsOf k t).

Definition NuggetTimers (w : World) : Prop :=
  ntOk (browser w) (comboTimerRef (app w)) (nuggets (scene w))
       (nuggetIdRef (scene w)) (collected (inst w)).

Lemma ntOk_spawn b r ns ref col (p : Vec3) :
  ntOk b r ns ref col -> ntOk b r (ns ++ [mkNugget p ref]) (ref + 1) col.
Proof.
  intros (T & (P & ND & B) & U & O & M & S).
  split; [exact T|]. split; [|split; [|split; [|split]]].
  - split; [lia|]. split.
    + rewrite map_app. cbn [map nid].
      apply NoDup_app; [exact ND | repeat constructor; intros [] |].
      intros x Hx [<-|[]]. apply in_map_iff in Hx.
      destruct Hx as (n & E & Hn). apply B in Hn. lia.
    + intros n H. apply in_app_or in H. destruct H as [H|[<-|[]]].
      * apply B in H. lia.
      * cbn [nid]. lia.
  - intros k H. apply U. lia.
  - exact O.
  - intros t k Ht C. destruct (M t k Ht C) as [I E]. split; [|exact E].
    rewrite map_app. apply in_or_app. left. exact I.
  - intros k H E. rewrite map_app in H. apply in_app_or in H.
    destruct H as [H|[<-|[]]]; [apply S; assumption|].
    cbn [nid] in E. rewrite U in E by lia. discriminate.
Qed.

Lemma ntOk_ext b r ns ref col col' :
  (forall j, col' j = col j) -> ntOk b r ns ref col -> ntOk b r ns ref col'.
Proof.
  intros X (T & F & U & O & M & S).
  split; [exact T|]. split; [exact F|]. split; [|split; [|split]].
  - intros k H. rewrite X. apply U. exact H.
  - exact O.
  - intros t k Ht C. rewrite X. apply (M t k); assumption.
  - intros k H E. rewrite X in E. apply S; assumption.
Qed.

Lemma ntOk_click b r ns ref col (k c : Z) (ms : nat) :
  In k (map nid ns) -> col k = false ->
  ntOk b r ns ref col ->
  ntOk (snd (setTimeout (OnCollect k c) ms b)) r ns ref (updZ col k true).
Proof.
  intros Hk Ck ((P & T) & (Pr & ND & B) & U & O & M & S).
  assert (New : forall j, collectsOf j (mkTimer (nextHandle b) (now b + ms)
                                                (OnCollect k c)) -> j = k).
  { intros j (c' & E). cbn [callback] in E. congruence. }
  split; [|split; [|split; [|split; [|split]]]].
  - split; [cbn [setTimeout snd nextHandle]; lia|].
    apply timersOk_setTimeout_collect; assumption.
  - auto.
  - intros j H. unfold updZ. destruct (Z.eqb_spec j k) as [->|N]; [|auto].
    apply in_map_iff in Hk. destruct Hk as (n & E & Hn). apply B in Hn. lia.
  - intros t1 t2 j H1 H2 C1 C2.
    apply in_setTimeout in H1, H2.
    destruct H1 as [H1| ->], H2 as [H2| ->].
    + apply (O t1 t2 j); assumption.
    + apply New in C2. subst j. destruct (M t1 k H1 C1). congruence.
    + apply New in C1. subst j. destruct (M t2 k H2 C2). congruence.
    + reflexivity.
  - intros t j H C. apply in_setTimeout in H. unfold updZ.
    destruct H as [H| ->].
    + destruct (M t j H C) as [I E]. split; [exact I|].
      destruct (j =? k); [reflexivity | exact E].
    + apply New in C. subst j. rewrite Z.eqb_refl. auto.
  - intros j H E. unfold updZ in E. destruct (Z.eqb_spec j k) as [->|N].
    + exists (mkTimer (nextHandle b) (now b + ms) (OnCollect k c)).
      split; [apply in_setTimeout; right; reflexivity|].
      exists c. reflexivity.
    + destruct (S j H E) as (t & Ht & C'). exists t.
      split; [apply in_setTimeout; left; exact Ht | exact C'].
Qed.

Lemma ntOk_remove b r ns ref col (t : Timer) (n : nat) :
  In t (pending b) ->
  ntOk b r ns ref col ->
  let b' := mkBrowser n (nextHandle b)
              (filter (fun u => negb (handle u =? handle t)%nat) (pending b)) in
  match callback t with
  | ResetCombo => ntOk b' r ns ref col
  | OnCollect k _ =>
      ntOk b' r (filter (fun x => negb (nid x =? k)) ns) ref col
  end.
Proof.
  intros Ht ((P & T) & (Pr & ND & B) & U & O & M & S). cbv zeta.
  assert (T' : timersOk
                 (mkBrowser n (nextHandle b)
                    (filter (fun u => negb (handle u =? handle t)%nat)
                            (pending b))) r)
    by (apply timersOk_remove; exact T).
  assert (In' : forall u,
             In u (filter (fun u => negb (handle u =? handle t)%nat) (pending b))
             <-> In u (pending b) /\ u <> t).
  { intro u. rewrite filter_In, negb_true_iff, Nat.eqb_neq.
    destruct T as (_ & NDh & _).
    split; intros [H1 H2]; (split; [exact H1|]).
    - intros ->. apply H2. reflexivity.
    - intro E. apply H2.
      apply (NoDup_map_eq handle (pending b)); assumption. }
  destruct (callback t) as [k c|] eqn:Cb.
  - split; [split; assumption|]. cbn [pending].
    split; [|split; [|split; [|split]]].
    + split; [exact Pr|]. split; [apply NoDup_map_filter; exact ND|].
      intros x H. apply filter_In in H. apply B. tauto.
    + exact U.
    + intros t1 t2 j H1 H2. apply In' in H1, H2. apply O; tauto.
    + intros u j H C. apply In' in H. destruct H as [H N].
      destruct (M u j H C) as [I E]. split; [|exact E].
      apply in_map_iff in I. destruct I as (x & Ex & Hx).
      apply in_map_iff. exists x. split; [exact Ex|].
      apply filter_In. split; [exact Hx|].
      rewrite negb_true_iff, Z.eqb_neq, Ex. intros ->.
      apply N. apply (O u t k); try assumption. exists c. exact Cb.
    + intros j H E. apply in_map_iff in H. destruct H as (x & Ex & Hx).
      apply filter_In in Hx. destruct Hx as [Hx Nx].
      rewrite negb_true_iff, Z.eqb_neq, Ex in Nx.
      destruct (S j) as (u & Hu & C); [rewrite <- Ex; apply in_map; exact Hx
                                      | exact E |].
      exists u. split; [|exact C]. apply In'. split; [exact Hu|].
      intros ->. destruct C as (c' & C). congruence.
  - split; [split; assumption|]. cbn [pending].
    split; [auto|]. split; [exact U|]. split; [|split].
    + intros t1 t2 j H1 H2. apply In' in H1, H2. apply O; tauto.
    + intros u j H C. apply In' in H. apply (M u j); tauto.
    + intros j H E. destruct (S j H E) as (u & Hu & C).
      exists u. split; [|exact C]. apply In'. split; [exact Hu|].
      intros ->. destruct C as (c' & C). congruence.
Qed.

Lemma NuggetTimers_goldCollect (c : Z) (w : World) :
  NuggetTimers w -> NuggetTimers (App.handleGoldCollect c w).
Proof.
  unfold NuggetTimers. intros ((P & T) & F & U & O & M & S).
  destruct (handleGoldCollect_frame c w) as (Es & Ei & _).
  destruct (handleGoldCollect_browser c w) as (_ & _ & _ & Pn).
  destruct (handleGoldCollect_TimersGood c w (conj P T)) as [P' T'].
  rewrite Es, Ei.
  assert (Old : forall u j,
             In u (pending (browser (App.handleGoldCollect c w))) ->
             collectsOf j u -> In u (pending (browser w))).
  { intros u j H (c' & C). apply Pn in H. destruct H as [[H _]| ->]; [exact H|].
    discriminate. }
  split; [split; assumption|]. split; [exact F|]. split; [exact U|].
  split; [|split].
  - intros t1 t2 j H1 H2 C1 C2. apply (O t1 t2 j); eauto.
  - intros u j H C. apply (M u j); eauto.
  - intros j H E. destruct (S j H E) as (u & Hu & C). exists u.
    split; [|exact C]. apply Pn. left. split; [exact Hu|].
    unfold cleared. destruct (comboTimerRef (app w)) as [h|] eqn:R; [|tauto].
    intros [_ Eh]. destruct T as (_ & _ & Tc & _).
    assert (callback u = ResetCombo) by (apply (Tc u Hu); congruence).
    destruct C as (c' & C). congruence.
Qed.

Lemma fire_NuggetTimers (w : World) (t : Timer) :
  NuggetTimers w -> In t (pending (browser w)) -> NuggetTimers (fire t w).
Proof.
  intros H Ht.
  pose proof (ntOk_remove _ _ _ _ _ t
                (Nat.max (now (browser w)) (due t)) Ht H) as R.
  cbv zeta in R. unfold fire, runCallback.
  destruct (callback t) as [k c|].
  - unfold GameScene.handleCollectGold. apply NuggetTimers_goldCollect. exact R.
  - exact R.
Qed.

Lemma clickBlock_NuggetTimers (w : World) (key : string) :
  NuggetTimers w -> NuggetTimers (clickBlock key w).
Proof.
  unfold NuggetTimers. intro H.
  destruct (clickBlock_shell key w) as (B & _ & _ & R & C). rewrite B, R, C.
  destruct (clickBlock_scene key w) as [E|(b & _ & _ & _ & E)]; rewrite E;
    [exact H|].
  rewrite handleDig_eq. cbn [scene nuggets nuggetIdRef].
  destruct (hasGold b); [apply ntOk_spawn|]; exact H.
Qed.

Lemma clickNugget_NuggetTimers (w : World) (key : Z) :
  NuggetTimers w -> NuggetTimers (clickNugget key w).
Proof.
  intro H.
  destruct (clickNugget_cases key w) as [[_ E]|[(I & C & E)|(I & C & E)]];
    rewrite E; [exact H| |].
  - apply (ntOk_ext _ _ _ _ (collected (inst w))); [|exact H].
    intro j. cbn [inst withInst collected]. unfold updZ.
    destruct (Z.eqb_spec j key) as [->|]; congruence.
  - apply ntOk_click; assumption.
Qed.

Lemma run_NuggetTimers (es : list Event) (w : World) :
  NuggetTimers w -> NuggetTimers (run es w).
Proof.
  apply run_invariant.
  - intros w0 key. apply clickBlock_NuggetTimers.
  - intros w0 key. apply clickNugget_NuggetTimers.
  - intros w0 delta H. exact H.
  - intros w0 t. apply fire_NuggetTimers.
  - intros w0 n H. exact H.
Qed.

Lemma init_eq (ds : nat -> Q) :
  init ds =
    mkWorld (mkRng ds 486) (mkBrowser 0 1 []) (mkApp 0 0 0 None)
            (mkScene (gridBlocks ds) [] [] 0 0)
            (mkInst (fun _ => 0) (fun _ => false) (fun _ => 1%Q) (fun _ => None)).
Proof. unfold init. rewrite initGrid_eq. reflexivity. Qed.

Lemma init_NuggetTimers (ds : nat -> Q) : NuggetTimers (init ds).
Proof.
  pose proof (init_TimersGood ds) as G. revert G.
  rewrite init_eq. intros [P T]. unfold NuggetTimers, ntOk.
  cbn [browser pending scene nuggets nuggetIdRef inst collected app
       comboTimerRef map].
  split; [split; assumption|].
  split; [split; [lia|]; split; [constructor | intros n []]|].
  split; [reflexivity|]. split; [intros t1 t2 k []|].
  split; [intros t k []|]. intros k [].
Qed.

(** Timers of nuggets are never created by the passing of time. *)
Lemma fire_keeps_collects (t : Timer) (w : World) (u : Timer) :
  In u (pending (browser (fire t w))) -> isReset u = false ->
  In u (pending (browser w)).
Proof.
  unfold fire, runCallback. intros H R.
  destruct (callback t) as [k c|].
  - unfold GameScene.handleCollectGold in H.
    match type of H with
      In _ (pending (browser (App.handleGoldCollect c ?w0))) =>
        destruct (handleGoldCollect_browser c w0) as (_ & _ & _ & Pn) end.
    apply Pn in H. destruct H as [[H _]| ->]; [|discriminate].
    cbn [browser withScene withBrowser pending] in H.
    apply filter_In in H. tauto.
  - cbn [App.resetCombo browser withApp withBrowser pending] in H.
    apply filter_In in H. tauto.
Qed.

Lemma runTimers_keeps_collects (fuel deadline : nat) (w : World) (u : Timer) :
  In u (pending (browser (runTimers fuel deadline w))) -> isReset u = false ->
  In u (pending (browser w)).
Proof.
  revert w. induction fuel as [|fuel IH]; intros w H R; cbn [runTimers] in H;
    [exact H|].
  destruct (earliest (pending (browser w))) as [t|]; [|exact H].
  destruct (due t <=? deadline)%nat; [|exact H].
  apply (fire_keeps_collects t); [|exact R]. apply IH; assumption.
Qed.

Lemma elapse_keeps_collects (ms : nat) (w : World) (u : Timer) :
  In u (pending (browser (elapse ms w))) -> isReset u = false ->
  In u (pending (browser w)).
Proof.
  unfold elapse. cbn [browser withBrowser pending].
  apply runTimers_keeps_collects.
Qed.

Lemma nugget_clicks (n : nat) (k : Z) :
  GoldNugget.clicks n k false =
    (negb (n =? 0)%nat, if (n =? 0)%nat then [] else [(300%nat, k)])
  /\ GoldNugget.clicks n k true = (true, []).
Proof.
  assert (T : forall m, GoldNugget.clicks m k true = (true, [])).
  { induction m as [|m IH]; [reflexivity|].
    cbn [GoldNugget.clicks GoldNugget.handleClick negb]. rewrite IH. reflexivity. }
  split; [|apply T].
  destruct n as [|n]; [reflexivity|].
  cbn [GoldNugget.clicks GoldNugget.handleClick negb]. rewrite T. reflexivity.
Qed.

Lemma filter_none_out (k : Z) (l : list Nugget) :
  ~ In k (map nid l) -> filter (fun n => negb (nid n =? k)) l = l.
Proof.
  induction l as [|y l IH]; intro N; [reflexivity|]. cbn [filter].
  destruct (Z.eqb_spec (nid y) k) as [E|E]; cbn [negb].
  - exfalso. apply N. left. exact E.
  - f_equal. apply IH. intro H. apply N. right. exact H.
Qed.

Lemma filter_one_out (k : Z) (l : list Nugget) :
  NoDup (map nid l) -> In k (map nid l) ->
  S (List.length (filter (fun n => negb (nid n =? k)) l)) = List.length l.
Proof.
  induction l as [|x l IH]; intros ND H; [contradiction|].
  cbn [map] in ND. inversion ND as [|? ? Nx Nl]; subst.
  cbn [filter List.length]. destruct (Z.eqb_spec (nid x) k) as [E|E]; cbn [negb].
  - subst k. rewrite filter_none_out by exact Nx. reflexivity.
  - cbn [List.length]. f_equal. apply IH; [exact Nl|].
    destruct H as [H|H]; [contradiction | exact H].
Qed.

Lemma run_app (es1 es2 : list Event) (w : World) :
  run (es1 ++ es2) w = run es2 (run es1 w).
Proof. unfold run. apply fold_left_app. Qed.

(** A removed nugget stays removed. *)
Lemma run_gone (es : list Event) (w : World) (k : Z) :
  k < nuggetIdRef (scene w) ->
  ~ In k (map nid (nuggets (scene w))) ->
  ~ In k (map nid (nuggets (scene (run es w)))).
Proof.
  revert k.
  assert (R : nuggetIdRef (scene w) <= nuggetIdRef (scene (run es w))
              /\ forall k, k < nuggetIdRef (scene w) ->
                           ~ In k (map nid (nuggets (scene w))) ->
                           ~ In k (map nid (nuggets (scene (run es w))))).
  { apply (run_rel (fun s s' =>
             nuggetIdRef s <= nuggetIdRef s'
             /\ forall k, k < nuggetIdRef s ->
                          ~ In k (map nid (nuggets s)) ->
                          ~ In k (map nid (nuggets s')))).
    - intro s. split; [lia | auto].
    - intros s1 s2 s3 [L1 H1] [L2 H2]. split; [lia|].
      intros k Hk N. apply H2; [lia|]. apply H1; assumption.
    - intros p g w0. rewrite handleDig_eq. cbn [scene nuggets nuggetIdRef].
      destruct g; (split; [lia|]); intros k Hk N; [|exact N].
      rewrite map_app. intro H. apply in_app_or in H.
      destruct H as [H|[H|[]]]; [exact (N H)|]. cbn [nid] in H. lia.
    - intros j s. cbn [collectedScene nuggets nuggetIdRef]. split; [lia|].
      intros k Hk N H. apply N. apply in_map_iff in H.
      destruct H as (x & E & Hx). apply filter_In in Hx.
      apply in_map_iff. exists x. tauto.
    - intros v s. cbn [nuggets nuggetIdRef]. split; [lia | auto]. }
  apply R.
Qed.

(** Clicking the nugget [k] once or more, then waiting out the delay. *)
Definition clicksThenWait (k : Z) (more ms : nat) : list Event :=
  ClickNugget k :: repeat (ClickNugget k) more ++ [Elapse ms].

Lemma clicked_nugget_is_collected (w : World) (k : Z) (more ms : nat) :
  NuggetTimers w ->
  In k (map nid (nuggets (scene w))) -> collected (inst w) k = false ->
  (300 <= ms)%nat ->
  ~ In k (map nid (nuggets (scene (run (clicksThenWait k more ms) w)))).
Proof.
  intros Inv Hk Ck L. unfold clicksThenWait.
  change (ClickNugget k :: repeat (ClickNugget k) more ++ [Elapse ms])
    with ([ClickNugget k] ++ (repeat (ClickNugget k) more ++ [Elapse ms])).
  rewrite run_app, run_app.
  set (tk := mkTimer (nextHandle (browser w)) (now (browser w) + 300)
                     (OnCollect k (combo (app w)))).
  (* after the first click *)
  set (w0 := run [ClickNugget k] w).
  assert (P0 : NuggetTimers w0 /\ In k (map nid (nuggets (scene w0)))
               /\ collected (inst w0) k = true
               /\ In tk (pending (browser w0))
               /\ now (browser w0) = now (browser w)).
  { split; [apply run_NuggetTimers; exact Inv|].
    unfold w0. cbn [run fold_left step].
    destruct (clickNugget_cases k w) as [[N _]|[(_ & C & _)|(_ & _ & E)]];
      [contradiction | congruence |].
    rewrite E. cbn [scene withBrowser withInst inst collected browser].
    split; [exact Hk|]. split; [unfold updZ; rewrite Z.eqb_refl; reflexivity|].
    split; [apply in_setTimeout; right; reflexivity | reflexivity]. }
  clearbody w0.
  (* further clicks change nothing of this *)
  assert (P1 : forall n,
             let w1 := run (repeat (ClickNugget k) n) w0 in
             NuggetTimers w1 /\ In k (map nid (nuggets (scene w1)))
             /\ collected (inst w1) k = true
             /\ In tk (pending (browser w1))
             /\ now (browser w1) = now (browser w)).
  { intro n. cbv zeta. revert w0 P0.
    induction n as [|n IH]; intros w0 P0; [exact P0|].
    cbn [repeat run fold_left]. apply IH.
    destruct P0 as (I0 & H0 & C0 & T0 & N0).
    split; [apply clickNugget_NuggetTimers; exact I0|].
    cbn [step].
    destruct (clickNugget_cases k w0) as [[N _]|[(_ & _ & E)|(_ & C & _)]];
      [contradiction | | congruence].
    rewrite E. cbn [scene withInst inst collected browser].
    split; [exact H0|]. split; [unfold updZ; rewrite Z.eqb_refl; reflexivity|].
    split; assumption. }
  specialize (P1 more). cbv zeta in P1.
  set (w1 := run (repeat (ClickNugget k) more) w0) in *.
  destruct P1 as (I1 & H1 & C1 & T1 & N1).
  cbn [run fold_left step]. intro H.
  assert (I2 : NuggetTimers (elapse ms w1)).
  { apply (run_NuggetTimers [Elapse ms]). exact I1. }
  destruct I2 as (_ & _ & _ & _ & _ & S2).
  destruct (S2 k H) as (t & Ht & Ct).
  { rewrite elapse_inst. exact C1. }
  pose proof (collectsOf_isReset k t Ct) as R.
  destruct (elapse_complete ms w1) as [_ Late]. specialize (Late t Ht).
  apply elapse_keeps_collects in Ht; [|exact R].
  destruct I1 as (_ & _ & _ & O1 & _).
  assert (t = tk).
  { apply (O1 t tk k); try assumption. exists (combo (app w)). reflexivity. }
  subst t. cbn [due tk] in Late. lia.
Qed.

(** C7.  A click on an uncollected nugget sets [collected] and schedules
    [onCollect(id)] once, 300 ms later; a click on a collected nugget
    schedules nothing and changes nothing, so that over any number of clicks
    [collected] goes from false to true at most once and at most one timer is
    made.  When the timer runs, the owner filters the nugget out of [nuggets]
    and tells the gold counter ([combo] grows by 1, [gold] by the bonus).
    In every state the page can reach, ids are distinct (the filter removes
    exactly one entry), a nugget has at most one timer, timers belong to
    collected nuggets of the scene, and a collected nugget of the scene has
    its timer pending.  So a clicked nugget is gone once 300 ms have passed,
    whatever the number of clicks, and a nugget that is gone never comes
    back and has no timer left. *)
Theorem nugget_collected_once :
  (forall k, GoldNugget.handleClick k false = (true, Some (300%nat, k))
             /\ GoldNugget.handleClick k true = (true, None))
  /\ (forall n k,
        GoldNugget.clicks n k false =
          (negb (n =? 0)%nat, if (n =? 0)%nat then [] else [(300%nat, k)])
        /\ GoldNugget.clicks n k true = (true, []))
  /\ (forall w k,
        In k (map nid (nuggets (scene w))) -> collected (inst w) k = false ->
        let w' := clickNugget k w in
        pending (browser w') =
          pending (browser w) ++
            [mkTimer (nextHandle (browser w)) (now (browser w) + 300)
                     (OnCollect k (combo (app w)))]
        /\ collected (inst w') k = true
        /\ scene w' = scene w /\ app w' = app w)
  /\ (forall w k,
        collected (inst w) k = true ->
        let w' := clickNugget k w in
        browser w' = browser w /\ scene w' = scene w /\ app w' = app w
        /\ forall j, collected (inst w') j = collected (inst w) j)
  /\ (forall w t k c,
        callback t = OnCollect k c ->
        let w' := fire t w in
        nuggets (scene w') =
          filter (fun n => negb (nid n =? k)) (nuggets (scene w))
        /\ ~ In k (map nid (nuggets (scene w')))
        /\ combo (app w') = combo (app w) + 1
        /\ gold (app w') = gold (app w) + (c / 3 + 1))
  /\ (forall ds es,
        let w := run es (init ds) in
        (forall k, In k (map nid (nuggets (scene w))) ->
           S (List.length (filter (fun n => negb (nid n =? k))
                                  (nuggets (scene w)))) =
             List.length (nuggets (scene w)))
        /\ (forall t1 t2 k,
              In t1 (pending (browser w)) -> In t2 (pending (browser w)) ->
              collectsOf k t1 -> collectsOf k t2 -> t1 = t2)
        /\ (forall t k,
              In t (pending (browser w)) -> collectsOf k t ->
              In k (map nid (nuggets (scene w)))
              /\ collected (inst w) k = true)
        /\ (forall k,
              In k (map nid (nuggets (scene w))) ->
              collected (inst w) k = true ->
              exists t, In t (pending (browser w)) /\ collectsOf k t))
  /\ (forall ds es k more ms,
        let w := run es (init ds) in
        In k (map nid (nuggets (scene w))) -> collected (inst w) k = false ->
        (300 <= ms)%nat ->
        ~ In k (map nid (nuggets
                  (scene (run (clicksThenWait k more ms) w)))))
  /\ (forall ds es es' k,
        let w := run es (init ds) in
        0 <= k < nuggetIdRef (scene w) ->
        ~ In k (map nid (nuggets (scene w))) ->
        let w' := run es' w in
        ~ In k (map nid (nuggets (scene w')))
        /\ forall t, In t (pending (browser w')) -> ~ collectsOf k t).
Proof.
  split; [intro k; split; reflexivity|].
  split; [exact nugget_clicks|].
  split.
  { intros w k Hk Ck. cbv zeta.
    destruct (clickNugget_cases k w) as [[N _]|[(_ & C & _)|(_ & _ & E)]];
      [contradiction | congruence |].
    rewrite E. cbn [browser withBrowser withInst inst collected scene app
                    setTimeout snd pending].
    split; [reflexivity|]. split; [|split; reflexivity].
    unfold updZ. rewrite Z.eqb_refl. reflexivity. }
  split.
  { intros w k Ck. cbv zeta.
    destruct (clickNugget_cases k w) as [[_ E]|[(_ & _ & E)|(_ & C & _)]];
      [| |congruence]; rewrite E.
    - repeat split; reflexivity.
    - cbn [browser withInst inst collected scene app].
      split; [reflexivity|]. split; [reflexivity|]. split; [reflexivity|].
      intro j. unfold updZ. destruct (Z.eqb_spec j k) as [->|]; congruence. }
  split.
  { intros w t k c Cb. cbv zeta. rewrite fire_scene, Cb. unfold fire.
    rewrite Cb. cbn [runCallback collectedScene nuggets].
    match goal with |- context [GameScene.handleCollectGold c k ?w0] =>
      destruct (handleCollectGold_app c k w0) as (G & C & _) end.
    rewrite G, C.
    split; [reflexivity|]. split; [|split; reflexivity].
    intro H. apply in_map_iff in H. destruct H as (x & E & Hx).
    apply filter_In in Hx. destruct Hx as [_ Hx].
    rewrite E, Z.eqb_refl in Hx. discriminate. }
  split.
  { intros ds es. cbv zeta.
    pose proof (run_NuggetTimers es _ (init_NuggetTimers ds)) as I.
    destruct I as (_ & (_ & ND & _) & _ & O & M & S).
    split; [intros k H; apply filter_one_out; assumption|].
    split; [exact O|]. split; [exact M | exact S]. }
  split.
  { intros ds es k more ms. cbv zeta. intros Hk Ck L.
    apply clicked_nugget_is_collected; try assumption.
    apply run_NuggetTimers, init_NuggetTimers. }
  intros ds es es' k. cbv zeta. intros Hk N.
  assert (G : ~ In k (map nid (nuggets (scene (run es' (run es (init ds))))))).
  { apply run_gone; [lia | exact N]. }
  split; [exact G|]. intros t Ht C.
  pose proof (run_NuggetTimers es' _
                (run_NuggetTimers es _ (init_NuggetTimers ds))) as I.
  destruct I as (_ & _ & _ & _ & M & _).
  destruct (M t k Ht C) as [H _]. exact (G H).
Qed.

(** * Further properties of the components *)
















(** * Further properties of the running page *)

(** The four ways a click on a block can go. *)
Lemma clickBlock_cases (key : string) (w : World) :
  let i := inst w in
  let d := dugLevel i key in
  let bump v :=
    withInst (mkInst (updS (dugLevel i) key v) (collected i)
                     (opacity i) (meshRef i)) w in
  (~ In key (map id (blocks (scene w))) /\ clickBlock key w = w)
  \/ exists b,
       In b (blocks (scene w)) /\ id b = key
       /\ ((3 <= d /\ clickBlock key w = bump d)
           \/ (d < 3 /\ d <> 2 /\ clickBlock key w = bump (d + 1))
           \/ (d = 2
               /\ clickBlock key w =
                    let w2 := GameScene.handleDig (pos b) (hasGold b)
                                                  (bump (d + 1)) in
                    withInst
                      (mount (skipn (List.length (particles (scene (bump (d + 1)))))
                                    (particles (scene w2)))
                             (inst w2)) w2)).
Proof.
  cbv zeta. unfold clickBlock.
  destruct (find (fun b => String.eqb (id b) key) (blocks (scene w)))
    as [b|] eqn:F.
  - apply find_some in F. destruct F as [Hin E]. apply String.eqb_eq in E.
    right. exists b. split; [exact Hin|]. split; [exact E|].
    unfold GroundBlock.handleClick.
    destruct (Z.ltb_spec (dugLevel (inst w) key) 3) as [L|L].
    + destruct (Z.eqb_spec (dugLevel (inst w) key) 2) as [T|T].
      * right. right. split; [exact T | reflexivity].
      * right. left. split; [exact L|]. split; [exact T | reflexivity].
    + left. split; [exact L | reflexivity].
  - left. split; [|reflexivity].
    intro H. apply in_map_iff in H. destruct H as (b & E & Hin).
    apply (find_none _ _ F) in Hin. rewrite E, String.eqb_refl in Hin.
    discriminate.
Qed.

Lemma dugLevel_mount (fresh : list Particle) (i : Instances) :
  dugLevel (mount fresh i) = dugLevel i.
Proof. reflexivity. Qed.

(** What a click on a block changes. *)
Lemma clickBlock_effect (key : string) (w : World) :
  let w' := clickBlock key w in
  let d := dugLevel (inst w) key in
  (~ In key (map id (blocks (scene w))) /\ w' = w)
  \/ exists b,
       In b (blocks (scene w)) /\ id b = key
       /\ browser w' = browser w
       /\ ((d <> 2 /\ scene w' = scene w /\ app w' = app w /\ rng w' = rng w
            /\ dugLevel (inst w') =
                 updS (dugLevel (inst w)) key (if d <? 3 then d + 1 else d))
           \/ (d = 2
               /\ scene w' = scene (GameScene.handleDig (pos b) (hasGold b) w)
               /\ app w' = app (GameScene.handleDig (pos b) (hasGold b) w)
               /\ rng w' = rng (GameScene.handleDig (pos b) (hasGold b) w)
               /\ dugLevel (inst w') = updS (dugLevel (inst w)) key 3)).
Proof.
  cbv zeta.
  destruct (clickBlock_shell key w) as (B & _).
  destruct (clickBlock_cases key w) as [[N E]|(b & Hin & Eb & C)];
    [left; auto|].
  right. exists b. split; [exact Hin|]. split; [exact Eb|]. split; [exact B|].
  cbv zeta in C. destruct C as [[L E]|[(L & T & E)|(T & E)]]; rewrite E.
  - left. split; [lia|]. rewrite inst_withInst, scene_withInst.
    destruct (Z.ltb_spec (dugLevel (inst w) key) 3); [lia|].
    repeat split; reflexivity.
  - left. split; [exact T|]. rewrite inst_withInst, scene_withInst.
    destruct (Z.ltb_spec (dugLevel (inst w) key) 3); [|lia].
    repeat split; reflexivity.
  - right. split; [exact T|].
    rewrite scene_withInst, inst_withInst, dugLevel_mount.
    rewrite !handleDig_eq, T. repeat split; reflexivity.
Qed.

Definition countGold (bs : list Block) : nat := List.length (filter hasGold bs).

Lemma remove_block (b : Block) (l : list Block) :
  NoDup (map id l) -> In b l ->
  let l' := filter (fun x => negb (String.eqb (id x) (id b))) l in
  S (List.length l') = List.length l
  /\ (countGold l' + (if hasGold b then 1 else 0))%nat = countGold l.
Proof.
  cbv zeta. unfold countGold.
  induction l as [|x l IH]; intros ND H; [contradiction|].
  cbn [map] in ND. inversion ND as [|? ? Nx Nl]; subst. cbn [filter].
  destruct H as [->|H].
  - rewrite String.eqb_refl. cbn [negb].
    assert (K : filter (fun x => negb (String.eqb (id x) (id b))) l = l).
    { clear IH Nl ND. induction l as [|y l IH]; [reflexivity|]. cbn [filter].
      destruct (String.eqb_spec (id y) (id b)) as [E|E]; cbn [negb].
      - exfalso. apply Nx. left. exact E.
      - f_equal. apply IH. intro H. apply Nx. right. exact H. }
    rewrite K. split; [reflexivity|].
    destruct (hasGold b); cbn [List.length]; lia.
  - destruct (IH Nl H) as [L G].
    destruct (String.eqb_spec (id x) (id b)) as [E|E]; cbn [negb].
    + exfalso. apply Nx. rewrite E. apply in_map. exact H.
    + cbn [List.length filter]. split; [lia|].
      destruct (hasGold x); cbn [List.length]; lia.
Qed.

(** The books of the page, for the grid drawn from [ds]. *)
Definition accounted (ds : nat -> Q) (w : World) : Prop :=
  let s := scene w in
  let n := digs (app w) in
  (exists f, blocks s = filter f (gridBlocks ds))
  /\ 0 <= n
  /\ n + Z.of_nat (List.length (blocks s)) = 486
  /\ map pid (particles s) = map Z.of_nat (seq 0 (8 * Z.to_nat n))
  /\ particleIdRef s = 8 * n
  /\ Z.of_nat (cursor (rng w)) = 486 + 24 * n
  /\ (forall b, In b (blocks s) -> 0 <= dugLevel (inst w) (id b) <= 2)
  /\ nuggetIdRef s + Z.of_nat (countGold (blocks s))
     = Z.of_nat (countGold (gridBlocks ds)).

Lemma grid_sublist (ds : nat -> Q) (f : Block -> bool) :
  NoDup (map id (filter f (gridBlocks ds)))
  /\ forall b, In b (filter f (gridBlocks ds)) -> id b = GameScene.blockId (pos b).
Proof.
  split.
  - apply NoDup_map_filter. rewrite gridBlocks_ids. apply cell_ids_NoDup.
  - intros b H. apply filter_In in H. destruct H as [H _].
    apply (gridBlocks_shape ds b H).
Qed.

Lemma eight_more (n : nat) (r : Z) (p : Pos) (ds : nat -> Q) (c : nat) :
  r = 8 * Z.of_nat n ->
  map Z.of_nat (seq 0 (8 * n)) ++ map pid (map (spawned p r ds c) (seq 0 8))
  = map Z.of_nat (seq 0 (8 * S n)).
Proof.
  intros ->. replace (8 * S n)%nat with (8 * n + 8)%nat by lia.
  rewrite seq_app, map_app. f_equal. cbn [seq map spawned pid Nat.add].
  repeat (f_equal; [lia|]). f_equal. lia.
Qed.

Lemma accounted_dig (ds : nat -> Q) (w : World) (b : Block) :
  accounted ds w -> In b (blocks (scene w)) ->
  let w' := GameScene.handleDig (pos b) (hasGold b) w in
  (exists f, blocks (scene w') = filter f (gridBlocks ds))
  /\ 0 <= digs (app w')
  /\ digs (app w') + Z.of_nat (List.length (blocks (scene w'))) = 486
  /\ map pid (particles (scene w'))
     = map Z.of_nat (seq 0 (8 * Z.to_nat (digs (app w'))))
  /\ particleIdRef (scene w') = 8 * digs (app w')
  /\ Z.of_nat (cursor (rng w')) = 486 + 24 * digs (app w')
  /\ (forall x, In x (blocks (scene w')) ->
                In x (blocks (scene w)) /\ id x <> id b)
  /\ nuggetIdRef (scene w') + Z.of_nat (countGold (blocks (scene w')))
     = Z.of_nat (countGold (gridBlocks ds)).
Proof.
  intros ((f & F) & P & L & Ps & Pr & C & _ & G) Hin. cbv zeta.
  destruct (grid_sublist ds f) as [ND Sh]. rewrite <- F in ND, Sh.
  rewrite handleDig_eq.
  cbn [scene app rng blocks particles digs cursor particleIdRef nuggetIdRef
       nuggets].
  rewrite <- (Sh b Hin).
  destruct (remove_block b _ ND Hin) as [Len Cg]. cbv zeta in Len, Cg.
  split.
  { exists (fun x => f x && negb (String.eqb (id x) (id b))).
    rewrite F. apply filter_filter. }
  split; [lia|]. split; [lia|]. split.
  { rewrite map_app, Ps.
    replace (Z.to_nat (digs (app w) + 1)) with (S (Z.to_nat (digs (app w))))
      by lia.
    apply eight_more. lia. }
  split; [lia|]. split; [lia|]. split.
  { intros x H. apply filter_In in H. destruct H as [H N].
    split; [exact H|]. apply negb_true_iff in N.
    destruct (String.eqb_spec (id x) (id b)); congruence. }
  destruct (hasGold b); lia.
Qed.

Lemma fire_books (t : Timer) (w : World) :
  digs (app (fire t w)) = digs (app w) /\ rng (fire t w) = rng w
  /\ blocks (scene (fire t w)) = blocks (scene w)
  /\ particles (scene (fire t w)) = particles (scene w)
  /\ particleIdRef (scene (fire t w)) = particleIdRef (scene w)
  /\ nuggetIdRef (scene (fire t w)) = nuggetIdRef (scene w).
Proof.
  rewrite fire_scene. unfold fire, runCallback.
  destruct (callback t) as [k c|].
  - match goal with |- context [GameScene.handleCollectGold c k ?w0] =>
      destruct (handleCollectGold_app c k w0) as (_ & _ & D);
      destruct (handleCollectGold_inst c k w0) as (_ & R) end.
    rewrite D, R. repeat split; reflexivity.
  - repeat split; reflexivity.
Qed.

Lemma init_accounted (ds : nat -> Q) : accounted ds (init ds).
Proof.
  unfold accounted. rewrite init_eq.
  cbn [scene app rng inst blocks particles digs particleIdRef nuggetIdRef cursor
       dugLevel].
  split; [exists (fun _ => true); symmetry; apply filter_all|].
  split; [lia|].
  split.
  { unfold gridBlocks.
    rewrite length_map, length_combine, length_seq, cells_length. reflexivity. }
  split; [reflexivity|]. split; [reflexivity|]. split; [reflexivity|].
  split; [intros; lia | lia].
Qed.

Lemma run_accounted (ds : nat -> Q) (es : list Event) (w : World) :
  accounted ds w -> accounted ds (run es w).
Proof.
  apply run_invariant.
  - intros w0 key A.
    destruct (clickBlock_effect key w0) as [[_ E]|(b & Hin & Eb & _ & C)];
      cbv zeta in *; [rewrite E; exact A|].
    destruct C as [(T & Es & Ea & Er & Ed)|(T & Es & Ea & Er & Ed)].
    + destruct A as (F & P & L & Ps & Pr & Cu & D & G).
      unfold accounted. rewrite Es, Ea, Er, Ed.
      split; [exact F|]. split; [exact P|]. split; [exact L|].
      split; [exact Ps|]. split; [exact Pr|]. split; [exact Cu|].
      split; [|exact G].
      intros x Hx. specialize (D x Hx). unfold updS.
      destruct (String.eqb_spec (id x) key) as [E|E]; [|exact D].
      rewrite E in D. destruct (Z.ltb_spec (dugLevel (inst w0) key) 3); lia.
    + destruct (accounted_dig ds w0 b A Hin)
        as (F & P & L & Ps & Pr & Cu & Sub & G).
      cbv zeta in *.
      destruct A as (_ & _ & _ & _ & _ & _ & D & _).
      unfold accounted. rewrite Es, Ea, Er, Ed.
      split; [exact F|]. split; [exact P|]. split; [exact L|].
      split; [exact Ps|]. split; [exact Pr|]. split; [exact Cu|].
      split; [|exact G].
      intros x Hx. destruct (Sub x Hx) as [Hx0 N]. unfold updS.
      destruct (String.eqb_spec (id x) key) as [E|E]; [congruence|].
      apply D. exact Hx0.
  - intros w0 key A.
    destruct (clickNugget_cases key w0) as [[_ E]|[(_ & _ & E)|(_ & _ & E)]];
      rewrite E; exact A.
  - intros w0 delta A. destruct A as (F & P & L & Ps & Pr & Cu & D & G).
    unfold accounted, frame.
    cbn [scene app rng inst withInst withScene blocks particles particleIdRef
         nuggetIdRef dugLevel].
    split; [exact F|]. split; [exact P|]. split; [exact L|].
    split; [rewrite map_map; exact Ps|].
    split; [exact Pr|]. split; [exact Cu|]. split; [exact D | exact G].
  - intros w0 t A _. destruct (fire_books t w0) as (D & R & B & Pa & Pr & Nr).
    unfold accounted. rewrite D, R, B, Pa, Pr, Nr, fire_inst. exact A.
  - intros w0 n A. exact A.
Qed.



(** X5.  Gold is conserved: in every reachable state the nuggets issued so
    far are as many as the gold blocks excavated so far, that is,
    [nuggetIdRef] plus the gold blocks still in the scene is the number of
    gold blocks of the grid. *)
Theorem gold_is_conserved (ds : nat -> Q) (es : list Event) :
  let w := run es (init ds) in
  nuggetIdRef (scene w) + Z.of_nat (countGold (blocks (scene w)))
  = Z.of_nat (countGold (blocks (scene (init ds)))).
Proof.
  cbv zeta. rewrite init_blocks.
  destruct (run_accounted ds es _ (init_accounted ds))
    as (_ & _ & _ & _ & _ & _ & _ & G).
  exact G.
Qed.

Lemma blocks_in_grid (ds : nat -> Q) (es : list Event) (b : Block) :
  In b (blocks (scene (run es (init ds)))) ->
  exists x y z,
    pos b = (x, y, z) /\ depth b = - y
    /\ -4 <= x <= 4 /\ -5 <= y <= 0 /\ -4 <= z <= 4.
Proof.
  intro H. apply run_blocks_in in H. rewrite init_blocks in H.
  destruct (gridBlocks_shape ds b H) as [_ D].
  destruct (pos b) as [[x y] z] eqn:E. exists x, y, z.
  split; [reflexivity|]. split; [exact D|].
  apply (gridBlocks_cell ds). exists b. split; assumption.
Qed.

(** X6.  Every block of the scene is drawn: in every reachable state its
    [dugLevel] is 0, 1 or 2, so it renders a mesh, whose height scale
    [1 - dugLevel / 4] is at least 1/2; the mesh shrinks from the top, which
    comes down by 39/160 with each click while the bottom face sinks by
    1/160 only. *)
Theorem listed_blocks_are_drawn (ds : nat -> Q) (es : list Event) (b : Block) :
  let w := run es (init ds) in
  let d := dugLevel (inst w) (id b) in
  In b (blocks (scene w)) ->
  0 <= d <= 2
  /\ GroundBlock.renders d = true
  /\ (GroundBlock.scale d == 1 - inject_Z d / 4)%Q
  /\ (1 # 2 <= GroundBlock.scale d <= 1)%Q
  /\ (GroundBlock.top (pos b) (d + 1) == GroundBlock.top (pos b) d - (39 # 160))%Q
  /\ (GroundBlock.bottom (pos b) (d + 1)
      == GroundBlock.bottom (pos b) d - (1 # 160))%Q.
Proof.
  cbv zeta. intro H.
  destruct (run_accounted ds es _ (init_accounted ds))
    as (_ & _ & _ & _ & _ & _ & D & _).
  specialize (D b H). set (d := dugLevel (inst (run es (init ds))) (id b)) in *.
  split; [exact D|]. split.
  { unfold GroundBlock.renders. destruct (Z.leb_spec 3 d); [lia | reflexivity]. }
  assert (S : forall k, (GroundBlock.scale k == 1 - inject_Z k / 4)%Q).
  { intro k. unfold GroundBlock.scale. field. }
  assert (I : (0 <= inject_Z d <= 2)%Q).
  { split; [change 0%Q with (inject_Z 0) | change 2%Q with (inject_Z 2)];
      rewrite <- Zle_Qle; lia. }
  assert (S' : forall k, (GroundBlock.scale k == 1 - inject_Z k * (1 # 4))%Q).
  { intro k. unfold GroundBlock.scale. ring. }
  split; [apply S|]. split; [rewrite S'; lra|].
  unfold GroundBlock.top, GroundBlock.bottom, GroundBlock.meshPosition.
  destruct (pos b) as [[x y] z]. cbn [fst snd].
  rewrite !S', inject_Z_plus. change (inject_Z 1) with 1%Q.
  split; field.
Qed.

Lemma listed_blocks_are_drawn_witness :
  let w := run [ClickBlock "0-0-0"; ClickBlock "0-0-0"] (init zeros) in
  let b := mkBlock (0, 0, 0) "0-0-0" true 0 in
  0 <= dugLevel (inst w) (id b) <= 2.
Proof.
  apply (fun H => proj1 (listed_blocks_are_drawn zeros
                           [ClickBlock "0-0-0"; ClickBlock "0-0-0"]
                           (mkBlock (0, 0, 0) "0-0-0" true 0) H)).
  apply (nth_error_In _ 265). vm_compute. reflexivity.
Defined.

Lemma clicks_on_absent (key : string) (n : nat) (w : World) :
  ~ In key (map id (blocks (scene w))) ->
  run (repeat (ClickBlock key) n) w = w.
Proof.
  intro N. induction n as [|n IH]; [reflexivity|].
  change (run (repeat (ClickBlock key) (S n)) w)
    with (run (repeat (ClickBlock key) n) (clickBlock key w)).
  destruct (clickBlock_cases key w) as [[_ E]|(b & Hin & Eb & _)].
  - rewrite E. exact IH.
  - exfalso. apply N. rewrite <- Eb. apply in_map. exact Hin.
Qed.

Lemma clicks_on_block (ds : nat -> Q) (n : nat) :
  forall (w : World) (b : Block),
    accounted ds w -> In b (blocks (scene w)) ->
    let d := dugLevel (inst w) (id b) in
    let w' := run (repeat (ClickBlock (id b)) n) w in
    (Z.of_nat n < 3 - d ->
       scene w' = scene w /\ app w' = app w
       /\ dugLevel (inst w') (id b) = d + Z.of_nat n)
    /\ (3 - d <= Z.of_nat n ->
          scene w' = scene (GameScene.handleDig (pos b) (hasGold b) w)
          /\ app w' = app (GameScene.handleDig (pos b) (hasGold b) w)
          /\ ~ In b (blocks (scene w'))).
Proof.
  induction n as [|n IH]; intros w b A Hin; cbv zeta.
  - destruct A as (_ & _ & _ & _ & _ & _ & D & _). specialize (D b Hin).
    cbn [repeat run fold_left]. split; [|intro; lia].
    intros _. split; [reflexivity|]. split; [reflexivity | lia].
  - change (run (repeat (ClickBlock (id b)) (S n)) w)
      with (run (repeat (ClickBlock (id b)) n) (clickBlock (id b) w)).
    pose proof (run_accounted ds [ClickBlock (id b)] w A) as A1.
    change (run [ClickBlock (id b)] w) with (clickBlock (id b) w) in A1.
    destruct A as ((f & F) & _ & _ & _ & _ & _ & D & _).
    pose proof (D b Hin) as Db.
    destruct (grid_sublist ds f) as [ND Sh]. rewrite <- F in ND, Sh.
    destruct (clickBlock_effect (id b) w) as [[N _]|(b0 & Hin0 & Eb & _ & C)].
    { exfalso. apply N. apply in_map. exact Hin. }
    assert (b0 = b) by (apply (NoDup_map_eq id (blocks (scene w))); assumption).
    subst b0. cbv zeta in C.
    destruct C as [(T & Es & Ea & Er & Ed)|(T & Es & Ea & _ & Ed)].
    + assert (Hin1 : In b (blocks (scene (clickBlock (id b) w))))
        by (rewrite Es; exact Hin).
      destruct (IH _ b A1 Hin1) as [Before After]. cbv zeta in Before, After.
      assert (D1 : dugLevel (inst (clickBlock (id b) w)) (id b)
                   = dugLevel (inst w) (id b) + 1).
      { rewrite Ed. unfold updS. rewrite String.eqb_refl.
        destruct (Z.ltb_spec (dugLevel (inst w) (id b)) 3); lia. }
      rewrite D1 in Before, After. split.
      * intro L. destruct Before as (S1 & P1 & L1); [lia|].
        rewrite S1, P1, L1, Es, Ea. split; [reflexivity|].
        split; [reflexivity | lia].
      * intro L. destruct After as (S1 & P1 & N1); [lia|].
        split; [rewrite S1, !handleDig_eq; cbv zeta; cbn [scene];
                rewrite Es, Er; reflexivity|].
        split; [rewrite P1, !handleDig_eq; cbv zeta; cbn [app];
                rewrite Ea; reflexivity | exact N1].
    + assert (Gone : ~ In (id b) (map id (blocks (scene (clickBlock (id b) w))))).
      { rewrite Es, handleDig_eq. cbn [scene blocks]. intro H.
        apply in_map_iff in H. destruct H as (x & Ex & Hx).
        apply filter_In in Hx. destruct Hx as [Hx Nx].
        rewrite <- (Sh b Hin), Ex, String.eqb_refl in Nx. discriminate. }
      rewrite clicks_on_absent by exact Gone.
      split; [intro; lia|]. intros _.
      split; [exact Es|]. split; [exact Ea|].
      intro H. apply Gone. apply in_map. exact H.
Qed.

(** X7.  A block is excavated by the click that finds its [dugLevel] at 2 and
    by no other: from a reachable state in which the block has [dugLevel = d],
    fewer than [3 - d] clicks on it change nothing but its [dugLevel], which
    grows by 1 per click, and [3 - d] clicks or more have exactly the effect
    of one call of [handleDig] for that block: it has left the scene, the
    other blocks are all there, and [digs] has grown by 1, however many
    clicks follow. *)
Theorem excavation_takes_three_clicks
        (ds : nat -> Q) (es : list Event) (b : Block) (n : nat) :
  let w := run es (init ds) in
  let d := dugLevel (inst w) (id b) in
  let w' := run (repeat (ClickBlock (id b)) n) w in
  In b (blocks (scene w)) ->
  (Z.of_nat n < 3 - d ->
     scene w' = scene w /\ app w' = app w
     /\ dugLevel (inst w') (id b) = d + Z.of_nat n)
  /\ (3 - d <= Z.of_nat n ->
        scene w' = scene (GameScene.handleDig (pos b) (hasGold b) w)
        /\ digs (app w') = digs (app w) + 1
        /\ forall x, In x (blocks (scene w'))
                     <-> In x (blocks (scene w)) /\ x <> b).
Proof.
  cbv zeta. intro Hin.
  pose proof (run_accounted ds es _ (init_accounted ds)) as A.
  destruct (clicks_on_block ds n _ b A Hin) as [Before After].
  cbv zeta in Before, After. split; [exact Before|].
  intro L. destruct (After L) as (S1 & P1 & _).
  split; [exact S1|]. split; [rewrite P1, handleDig_eq; reflexivity|].
  intro x. rewrite S1, handleDig_eq. cbn [scene blocks].
  rewrite filter_In, negb_true_iff. split; intros [H1 H2]; (split; [exact H1|]).
  - intros ->. pose proof (proj2 (grid_block_by_id ds es b b Hin Hin) eq_refl) as E.
    rewrite E, String.eqb_refl in H2. discriminate.
  - destruct (String.eqb_spec (id x) (GameScene.blockId (pos b))) as [E|E];
      [|reflexivity].
    exfalso. apply H2. apply (grid_block_by_id ds es b x Hin H1). exact E.
Qed.

Lemma excavation_takes_three_clicks_witness :
  let b := mkBlock (0, 0, 0) "0-0-0" true 0 in
  let w := run [] (init zeros) in
  let w' := run (repeat (ClickBlock (id b)) 3) w in
  digs (app w') = digs (app w) + 1.
Proof.
  cbv zeta.
  refine (proj1 (proj2 (proj2 (excavation_takes_three_clicks zeros []
                                 (mkBlock (0, 0, 0) "0-0-0" true 0) 3 _) _))).
  - apply (nth_error_In _ 265). vm_compute. reflexivity.
  - vm_compute. discriminate.
Defined.

(** X8.  The colour of a block follows its row: the two top rows are
    topsoil, the next two brown dirt, the two deepest dark earth.  No block of
    the grid is deep enough for the rock colour, in any state the page can
    reach; a hovered block has the hover colour whatever its depth. *)
Theorem block_colours (ds : nat -> Q) (es : list Event) (b : Block) :
  In b (blocks (scene (run es (init ds)))) ->
  let y := snd (fst (pos b)) in
  GroundBlock.getColor (depth b) =
    (if -1 <=? y then "#8B7355"%string
     else if -3 <=? y then "#654321"%string else "#4A3728"%string)
  /\ GroundBlock.getColor (depth b) <> "#363636"%string
  /\ GroundBlock.color false (depth b) = GroundBlock.getColor (depth b)
  /\ GroundBlock.color true (depth b) = "#A0522D"%string.
Proof.
  intro H. cbv zeta.
  destruct (blocks_in_grid ds es b H) as (x & y & z & E & D & _ & Y & _).
  rewrite E, D. cbn [fst snd].
  assert (C : y = 0 \/ y = -1 \/ y = -2 \/ y = -3 \/ y = -4 \/ y = -5) by lia.
  destruct C as [->|[->|[->|[->|[->| ->]]]]];
    (split; [reflexivity|]); (split; [discriminate|]); split; reflexivity.
Qed.

Lemma block_colours_witness :
  GroundBlock.getColor (depth (mkBlock (0, 0, 0) "0-0-0" true 0))
  <> "#363636"%string.
Proof.
  refine (proj1 (proj2 (block_colours zeros []
                          (mkBlock (0, 0, 0) "0-0-0" true 0) _))).
  apply (nth_error_In _ 265). vm_compute. reflexivity.
Defined.

(** X9.  In every reachable state the timer table is well formed: handles
    are positive and pairwise distinct, at most one combo reset is pending,
    and when one is pending [comboTimerRef] holds its handle, so that the
    next collection clears it. *)
Theorem one_combo_reset_at_most (ds : nat -> Q) (es : list Event) :
  let w := run es (init ds) in
  let ts := pending (browser w) in
  (forall t, In t ts -> (0 < handle t < nextHandle (browser w))%nat)
  /\ NoDup (map handle ts)
  /\ (forall t, In t ts -> isReset t = true ->
                comboTimerRef (app w) = Some (handle t)
                /\ JS.truthy (handle t) = true)
  /\ (List.length (filter isReset ts) <= 1)%nat.
Proof.
  cbv zeta.
  destruct (run_TimersGood es _ (init_TimersGood ds)) as [_ (A & B & C & _)].
  split; [exact A|]. split; [exact B|]. split.
  { intros t H R. apply isReset_true in R. split; [apply (C t H); exact R|].
    apply A in H. unfold JS.truthy. apply negb_true_iff, Nat.eqb_neq. lia. }
  remember (pending (browser (run es (init ds)))) as ts eqn:Ets. clear Ets A.
  assert (Same : forall t u, In t (filter isReset ts) ->
                             In u (filter isReset ts) -> t = u).
  { intros t u Ht Hu. apply filter_In in Ht, Hu.
    destruct Ht as [Ht Rt], Hu as [Hu Ru].
    apply isReset_true in Rt, Ru.
    apply (C t Ht) in Rt. apply (C u Hu) in Ru.
    apply (NoDup_map_eq handle ts); try assumption. congruence. }
  assert (ND : NoDup (filter isReset ts)).
  { apply NoDup_filter. apply NoDup_map_inv with (f := handle). exact B. }
  destruct (filter isReset ts) as [|t [|u r]]; cbn [List.length]; try lia.
  exfalso. inversion ND as [|? ? N _]; subst. apply N.
  rewrite (Same t u); [left; reflexivity | left; reflexivity |].
  right. left. reflexivity.
Qed.

(** The nuggets collected so far: those issued that are no longer in the
    scene. *)
Definition collectedSoFar (w : World) : Z :=
  nuggetIdRef (scene w) - Z.of_nat (List.length (nuggets (scene w))).

Definition scoreOk (w : World) : Prop :=
  NuggetTimers w
  /\ (forall t k c, In t (pending (browser w)) ->
                    callback t = OnCollect k c -> 0 <= c)
  /\ 0 <= combo (app w) <= collectedSoFar w
  /\ collectedSoFar w <= gold (app w)
  /\ nuggetIdRef (scene w) <= digs (app w).

Lemma init_scoreOk (ds : nat -> Q) : scoreOk (init ds).
Proof.
  split; [apply init_NuggetTimers|]. unfold collectedSoFar. rewrite init_eq.
  cbn [browser pending app scene combo gold digs nuggetIdRef nuggets List.length].
  split; [intros t k c []|]. lia.
Qed.

Lemma fire_scoreOk (w : World) (t : Timer) :
  scoreOk w -> In t (pending (browser w)) -> scoreOk (fire t w).
Proof.
  intros (N & Cap & Co & Go & Di) Ht.
  pose proof (fire_NuggetTimers w t N Ht) as N'.
  destruct (fire_books t w) as (D & _ & _ & _ & _ & Nr).
  assert (Cap' : forall u k c, In u (pending (browser (fire t w))) ->
                               callback u = OnCollect k c -> 0 <= c).
  { intros u k c Hu Cu. apply (Cap u k c); [|exact Cu].
    apply (fire_keeps_collects t); [exact Hu|].
    unfold isReset. rewrite Cu. reflexivity. }
  split; [exact N'|]. split; [exact Cap'|].
  unfold collectedSoFar in *. rewrite D, Nr, fire_scene.
  destruct (callback t) as [k c|] eqn:Cb.
  - pose proof (Cap t k c Ht Cb) as Pc.
    destruct N as (_ & (_ & ND & _) & _ & _ & M & _).
    destruct (M t k Ht (ex_intro _ c Cb)) as [Hk _].
    pose proof (filter_one_out k _ ND Hk) as Len.
    unfold fire. rewrite Cb. cbn [runCallback].
    match goal with |- context [GameScene.handleCollectGold c k ?w0] =>
      destruct (handleCollectGold_app c k w0) as (G & C & _) end.
    rewrite G, C. cbn [collectedScene nuggets app withBrowser gold combo].
    assert (0 <= c / 3) by (apply Z.div_pos; lia).
    lia.
  - unfold fire. rewrite Cb.
    cbn [runCallback App.resetCombo app withApp withBrowser combo gold]. lia.
Qed.

Lemma run_scoreOk (es : list Event) (w : World) : scoreOk w -> scoreOk (run es w).
Proof.
  apply run_invariant.
  - intros w0 key (N & Cap & Co & Go & Di).
    pose proof (clickBlock_NuggetTimers w0 key N) as N'.
    split; [exact N'|]. unfold collectedSoFar in *.
    destruct (clickBlock_effect key w0) as [[_ E]|(b & _ & _ & B & C)];
      cbv zeta in *; [rewrite E; auto|].
    rewrite B. split; [exact Cap|].
    destruct C as [(_ & Es & Ea & _)|(_ & Es & Ea & _)]; rewrite Es, Ea;
      [auto|].
    rewrite handleDig_eq.
    cbn [scene app nuggetIdRef nuggets combo gold digs].
    destruct (hasGold b); [rewrite length_app; cbn [List.length]|]; lia.
  - intros w0 key (N & Cap & Co & Go & Di).
    pose proof (clickNugget_NuggetTimers w0 key N) as N'.
    split; [exact N'|]. unfold collectedSoFar in *.
    destruct (clickNugget_cases key w0) as [[_ E]|[(_ & _ & E)|(_ & _ & E)]];
      rewrite E; [auto | auto |].
    cbn [browser withBrowser scene app withInst].
    split; [|auto].
    intros t k c Ht Ct. apply in_setTimeout in Ht. destruct Ht as [Ht| ->].
    + apply (Cap t k c); assumption.
    + cbn [callback] in Ct. inversion Ct; subst. lia.
  - intros w0 delta H. exact H.
  - intros w0 t. apply fire_scoreOk.
  - intros w0 n H. exact H.
Qed.

(** X10.  In every reachable state the score is consistent with the scene:
    [combo] is at most the number of nuggets collected so far, every one of
    which has added at least 1 to [gold]; the nuggets collected and those in
    the scene are together the nuggets issued, which are at most [digs]. *)
Theorem score_bounds (ds : nat -> Q) (es : list Event) :
  let w := run es (init ds) in
  let gone := nuggetIdRef (scene w)
              - Z.of_nat (List.length (nuggets (scene w))) in
  0 <= combo (app w) <= gone
  /\ gone <= gold (app w)
  /\ nuggetIdRef (scene w) <= digs (app w) <= 486.
Proof.
  cbv zeta.
  destruct (run_scoreOk es _ (init_scoreOk ds)) as (_ & _ & Co & Go & Di).
  destruct (run_accounted ds es _ (init_accounted ds)) as (_ & P & L & _).
  unfold collectedSoFar in *. lia.
Qed.

(** ** Block ids *)







